(** * mingo: the expression and aggregation core

    A shallow embedding of [core.ts] (operator registry, [computeValue],
    [accumulate], [redact]) and of the [$floor] expression operator,
    together with the properties of the specification that concern them.

    JavaScript values are rendered as a tree-shaped inductive type; a
    JavaScript object is an association list in its own-property order,
    since [each] visits the entries in that order and may stop early.
    Operators re-enter the evaluator through a capability bundle, so the
    evaluator is defined by recursion on a fuel counter: one unit per
    nested call of [computeValue], [accumulate] or [redact]. *)

From Stdlib Require Import Ascii String QArith Qround.
From stdpp Require Import gmap strings list.

Set Warnings "-register-all".

Local Open Scope string_scope.
Local Open Scope list_scope.

(** ** Values *)

(** A JavaScript number.  [Math.floor] is exact on every finite double, so
    finite numbers are carried as rationals; the sign of zero is not
    represented. *)
Inductive number : Type :=
| NaN
| Infinity (negative : bool)
| Finite (q : Q).

(** A string is carried as the bytes of its UTF-8 encoding.  The core cuts
    strings at [$] and [.] and after the ASCII name of a system variable
    only, where bytes and UTF-16 code units agree. *)
Inductive value : Type :=
| VUndefined
| VNull
| VBool (b : bool)
| VNum (n : number)
| VStr (s : string)
| VArr (items : list value)
| VObj (entries : list (string * value)).

Definition int (z : Z) : value := VNum (Finite (inject_Z z)).

(** ** Failures

    Every failure of the core is an [assert] with its own message; the
    constructors name the assertion sites after the specification's taxonomy
    and keep what the message is built from. *)
Inductive OperatorType : Type :=
| ACCUMULATOR
| EXPRESSION
| PIPELINE
| PROJECTION
| QUERY.

Inductive error : Type :=
| InvalidOperatorName (op : string)
    (* `Invalid operator name ${op}` *)
| DuplicateOperator (op : string) (cls : OperatorType)
    (* `${op} already exists for '${cls}' operators` *)
| InvalidGroupExpression (expr : value)
    (* "Invalid $group expression '" + JSON.stringify(expr) + "'" *)
| InvalidExpression (expr : value)
    (* "Invalid aggregation expression '" + JSON.stringify(expr) + "'" *)
| TypeError (message : string).
    (* operator + ' expression must resolve to an array', and the
       messages of the operators' own preconditions *)

Inductive result (A : Type) : Type :=
| Ok (a : A)
| Throw (e : error)
| OutOfFuel.

Arguments Ok {A} a.
Arguments Throw {A} e.
Arguments OutOfFuel {A}.

Definition bind {A B : Type} (m : result A) (k : A -> result B) : result B :=
  match m with
  | Ok a => k a
  | Throw e => Throw e
  | OutOfFuel => OutOfFuel
  end.

Notation "'let*' x ':=' m 'in' k" := (bind m (fun x => k))
  (at level 10, x name, m at level 100, k at level 200,
   format "'[' 'let*'  x  ':='  m  'in' ']' '/' k").

(** Modelled from the spec: [assert(condition, message)] of [./util], a
    fault that halts the evaluation when the condition fails. *)
Definition assert (condition : bool) (e : error) : result unit :=
  if condition then Ok tt else Throw e.

Fixpoint mapM {A B : Type} (f : A -> result B) (l : list A) : result (list B) :=
  match l with
  | [] => Ok []
  | x :: l' => let* y := f x in let* ys := mapM f l' in Ok (y :: ys)
  end.

(** ** The helpers imported from [./util]

    The module [./util] lies outside the core; its helpers are given the
    meaning their names and their uses in the core call for. *)

(** Modelled from the spec: [isNil] of [./util], null or undefined. *)
Definition isNil (v : value) : bool :=
  match v with VUndefined | VNull => true | _ => false end.

(** Modelled from the spec: [isArray] of [./util], a sequence. *)
Definition isArray (v : value) : bool :=
  match v with VArr _ => true | _ => false end.

(** Modelled from the spec: [isObject] of [./util], a mapping (a plain
    object). *)
Definition isObject (v : value) : bool :=
  match v with VObj _ => true | _ => false end.

(** Own-property lookup in an object given as its entries. *)
Fixpoint lookup_entry {A : Type} (key : string) (entries : list (string * A)) : option A :=
  match entries with
  | [] => None
  | (k, v) :: rest => if String.eqb k key then Some v else lookup_entry key rest
  end.

(** [obj[key] = v] on an own property or a new one: an existing property
    keeps its place, a new one goes last. *)
Fixpoint put_entry {A : Type} (key : string) (v : A) (entries : list (string * A))
  : list (string * A) :=
  match entries with
  | [] => [(key, v)]
  | (k, w) :: rest =>
      if String.eqb k key then (k, v) :: rest else (k, w) :: put_entry key v rest
  end.

(** the name of the accessor that every object made by [{}] inherits *)
Definition proto_key : string := "__proto__".

(** [result[key] = v] on an object that began as [{}].  An assignment to
    [__proto__] runs the inherited setter: it stores no own property (it
    may change the prototype, which a value, being its own properties, does
    not carry).  [each] hands the keys over in own-property order, so the
    end of the entries is also where JavaScript puts a new one. *)
Definition set_entry {A : Type} (key : string) (v : A) (entries : list (string * A))
  : list (string * A) :=
  if String.eqb key proto_key then entries else put_entry key v entries.

(** the same assignment on a table *)
Definition set_property {A : Type} (key : string) (v : A) (obj : gmap string A)
  : gmap string A :=
  if String.eqb key proto_key then obj else <[key := v]> obj.

(** Modelled from the spec: [has] of [./util], the own-property test, on a
    table keyed by strings.  The specification reads [has(table, x)] as
    "x exactly matches a name of the table", so a key that is not a string
    is the name of no property. *)
Definition has {A : Type} (obj : gmap string A) (prop : value) : bool :=
  match prop with
  | VStr name => match obj !! name with Some _ => true | None => false end
  | _ => false
  end.

(** [table[prop]] for a key that [has] accepts *)
Definition get {A : Type} (obj : gmap string A) (prop : value) : option A :=
  match prop with
  | VStr name => obj !! name
  | _ => None
  end.

(** [has(v, name)] on a value: of the values only an object has named own
    properties. *)
Definition has_property (v : value) (name : string) : bool :=
  match v with
  | VObj entries => match lookup_entry name entries with Some _ => true | None => false end
  | _ => false
  end.

(** Modelled from the spec: [keys(expr).length === 1], the mapping has
    exactly one entry. *)
Definition single_entry (expr : value) : bool :=
  Nat.eqb (match expr with VObj all => length all | _ => 0 end) 1.

(** [s.split('.')] *)
Fixpoint split_dot (s : string) : list string :=
  match s with
  | EmptyString => [EmptyString]
  | String c s' =>
      if Ascii.eqb c "."%char then EmptyString :: split_dot s'
      else match split_dot s' with
           | seg :: segs => String c seg :: segs
           | [] => [String c EmptyString]
           end
  end.

(** [s.substr(n)] and [s.slice(n)] for a non-negative [n] *)
Fixpoint substr (s : string) (n : nat) {struct n} : string :=
  match n, s with
  | O, _ => s
  | S n', String _ s' => substr s' n'
  | S _, EmptyString => EmptyString
  end.

(** ** Options *)

Record Config : Type := { idKey : string }.

Definition createConfig : Config := {| idKey := "_id" |}.

(** [ComputeOptions extends Options]: [config] is [None] when the property
    is null or missing, [root] is [None] when the object has no own property
    [root] (a property holding [undefined] is [Some VUndefined]). *)
Record ComputeOptions : Type := {
  config : option Config;
  root : option value
}.

(** [Object.assign({ root: obj }, options)]: a fresh object; an own [root]
    of [options] wins over [obj], a null or undefined source adds nothing. *)
Definition assign_root (obj : value) (options : option ComputeOptions) : ComputeOptions :=
  match options with
  | None => {| config := None; root := Some obj |}
  | Some o =>
      {| config := config o;
         root := match root o with Some r => Some r | None => Some obj end |}
  end.

(** The first two statements of [computeValue]:
    [options = options || { config: null }] and
    [options.config = options.config || createConfig()].  The second one
    writes into the caller's object; [ensure_config] is that object (or the
    fresh one) afterwards. *)
Definition ensure_config (options : option ComputeOptions) : ComputeOptions :=
  let o := match options with Some o => o | None => {| config := None; root := None |} end in
  {| config := Some (match config o with Some c => c | None => createConfig end);
     root := root o |}.

(** What the caller's [options] variable holds after a call of
    [computeValue]: the same object with [config] written, or still
    nothing. *)
Definition after_computeValue (options : option ComputeOptions) : option ComputeOptions :=
  match options with
  | Some _ => Some (ensure_config options)
  | None => None
  end.

(** ** Operators and the registry *)

Record ResolveOptions : Type := { unwrapArray : bool }.

(** The bundle [{ accumulate, computeValue, resolve }] handed to operator
    factories.  An operator of the embedding takes the bundle at each call,
    which is how it re-enters the evaluator. *)
Record Capabilities : Type := {
  cap_accumulate : value -> string -> value -> option ComputeOptions -> result value;
  cap_computeValue : value -> value -> option string -> option ComputeOptions -> result value;
  cap_resolve : value -> string -> option ResolveOptions -> value
}.

(** [(obj | collection, expr, options) => value] *)
Definition Operator : Type :=
  Capabilities -> value -> value -> option ComputeOptions -> result value.

(** [(selector, lhs, value | expr, options) => value], the raw signature of
    query and projection operators *)
Definition SelectorOperator : Type :=
  Capabilities -> string -> value -> value -> option ComputeOptions -> result value.

(** [(selector, value, options) => (obj) => boolean] *)
Definition QueryOperator : Type :=
  Capabilities -> string -> value -> option ComputeOptions -> value -> result value.

(** [(obj, expr, selector, options) => value] *)
Definition ProjectionOperator : Type :=
  Capabilities -> value -> value -> string -> option ComputeOptions -> result value.

(** What a factory gives for a category, and what the registry keeps. *)
Definition RawFunction (cls : OperatorType) : Type :=
  match cls with
  | QUERY | PROJECTION => SelectorOperator
  | _ => Operator
  end.

Definition Function (cls : OperatorType) : Type :=
  match cls with
  | QUERY => QueryOperator
  | PROJECTION => ProjectionOperator
  | _ => Operator
  end.

(** [const OPERATORS = {}], one table per member of [OperatorType]. *)
Record Registry : Type := {
  accumulator : gmap string Operator;
  expression : gmap string Operator;
  pipeline : gmap string Operator;
  projection : gmap string ProjectionOperator;
  query : gmap string QueryOperator
}.

(** [each(OperatorType, cls => OPERATORS[cls] = {})] *)
Definition empty_registry : Registry :=
  {| accumulator := ∅; expression := ∅; pipeline := ∅; projection := ∅; query := ∅ |}.

(** [OPERATORS[cls]] *)
Definition table (OPERATORS : Registry) (cls : OperatorType) : gmap string (Function cls) :=
  match cls return gmap string (Function cls) with
  | ACCUMULATOR => accumulator OPERATORS
  | EXPRESSION => expression OPERATORS
  | PIPELINE => pipeline OPERATORS
  | PROJECTION => projection OPERATORS
  | QUERY => query OPERATORS
  end.

Definition set_table (OPERATORS : Registry) (cls : OperatorType)
  : gmap string (Function cls) -> Registry :=
  match cls return gmap string (Function cls) -> Registry with
  | ACCUMULATOR => fun t =>
      {| accumulator := t; expression := expression OPERATORS; pipeline := pipeline OPERATORS;
         projection := projection OPERATORS; query := query OPERATORS |}
  | EXPRESSION => fun t =>
      {| accumulator := accumulator OPERATORS; expression := t; pipeline := pipeline OPERATORS;
         projection := projection OPERATORS; query := query OPERATORS |}
  | PIPELINE => fun t =>
      {| accumulator := accumulator OPERATORS; expression := expression OPERATORS; pipeline := t;
         projection := projection OPERATORS; query := query OPERATORS |}
  | PROJECTION => fun t =>
      {| accumulator := accumulator OPERATORS; expression := expression OPERATORS;
         pipeline := pipeline OPERATORS; projection := t; query := query OPERATORS |}
  | QUERY => fun t =>
      {| accumulator := accumulator OPERATORS; expression := expression OPERATORS;
         pipeline := pipeline OPERATORS; projection := projection OPERATORS; query := t |}
  end.

(** [getOperator(cls, operator)]: the function, or null.  [operator] is
    null ([None]) when [computeValue] is entered without an operator. *)
Definition getOperator (OPERATORS : Registry) (cls : OperatorType) (operator : option string)
  : option (Function cls) :=
  match operator with
  | Some name =>
      if has (table OPERATORS cls) (VStr name) then table OPERATORS cls !! name else None
  | None => None
  end.

(** [useOperators(cls, operators)]: [Object.assign(OPERATORS[cls], operators)].
    [Object.assign] assigns property by property, so an own [__proto__] of
    [operators] goes to the inherited setter and adds nothing to the table;
    a table, made by [{}] and filled here only, never owns that name. *)
Definition useOperators (cls : OperatorType) (operators : gmap string (Function cls))
    (OPERATORS : Registry) : Registry :=
  set_table OPERATORS cls (delete proto_key operators ∪ table OPERATORS cls).

(** ** System variables and redact variables *)

(** [systemVariables]: each handler is called with
    [(obj, expr, options)]. *)
Definition systemVariables : gmap string (value -> value -> ComputeOptions -> value) :=
  list_to_map
    [ ("$$ROOT", fun obj expr options =>
         match root options with Some r => r | None => VUndefined end);
      ("$$CURRENT", fun obj expr options => obj);
      ("$$REMOVE", fun obj expr options => VUndefined) ].

(** *** Redaction in place

    [redact] edits the document it is given.  When its options bind no
    root it binds the document itself, the very object it edits, so that a
    [$$ROOT] read by a nested call sees the fields deleted or overwritten so
    far.  The embedding keeps values by value and carries, for a call that
    works inside the bound document, the surroundings of its object: the
    function [around] that gives the bound document from the present state
    of the object.  A root bound by the caller is taken to be an object of
    its own, and the values a computation returns are taken by value. *)

(** the options as a call sees them: [options.root] is the bound document
    as it is now *)
Definition live_options (around : option (value -> value)) (obj : value)
    (options : option ComputeOptions) : option ComputeOptions :=
  match around with
  | Some around =>
      Some {| config := match options with Some o => config o | None => None end;
              root := Some (around obj) |}
  | None => options
  end.

(** [Object.assign({ root: obj }, options)] for the surroundings: a call
    that has none and finds no root in its options binds its own object *)
Definition bind_around (around : option (value -> value)) (options : option ComputeOptions)
  : option (value -> value) :=
  match around with
  | Some _ => around
  | None =>
      match options with
      | Some {| root := Some _ |} => None
      | _ => Some (fun obj => obj)
      end
  end.

(** [redact] as the handlers call it back: its surroundings, then
    [(obj, expr, options)]; it returns what [redact] returns and the object
    as [redact] leaves it. *)
Definition Redactor : Type :=
  option (value -> value) -> value -> value -> option ComputeOptions ->
  result (value * value).

(** [each(current, (elem) => ...)] of [$$DESCEND] on an array field:
    [seen] are the members already visited, as they are now, [kept] the
    ones pushed to the new array. *)
Fixpoint descend_elements (redact : Redactor) (around : option (value -> value))
    (expr : value) (options : option ComputeOptions) (seen kept elems : list value)
  : result (list value) :=
  match elems with
  | [] => Ok kept
  | elem :: rest =>
      if isObject elem then
        let inside :=
          option_map (fun around elem' => around (VArr (seen ++ elem' :: rest))) around in
        let* r := redact inside elem expr options in
        descend_elements redact around expr options (seen ++ [snd r])
          (if isNil (fst r) then kept else kept ++ [fst r]) rest
      else
        descend_elements redact around expr options (seen ++ [elem])
          (if isNil elem then kept else kept ++ [elem]) rest
  end.

(** What [$$DESCEND] does with one field [current] of the document:
    [Some v] when the field is kept or overwritten with [v], [None] when it
    is deleted.  Of the values, the arrays and the objects are the
    object-like ones ([isObjectLike]); [around] gives the bound document
    from the state of [current]. *)
Definition descend_field (redact : Redactor) (around : option (value -> value))
    (expr : value) (options : option ComputeOptions) (current : value)
  : result (option value) :=
  match current with
  | VArr elems =>
      let* kept := descend_elements redact around expr options [] [] elems in
      Ok (Some (VArr kept))
  | VObj _ =>
      let* r := redact around current expr options in
      Ok (if isNil (fst r) then None else Some (fst r))
  | _ => Ok (Some current)
  end.

(** [each(obj, (current, key) => ...)] over the fields of an object: [done]
    are the fields before, after their [delete obj[key]] or
    [obj[key] = result], [rest] the fields still to visit. *)
Fixpoint descend_entries (redact : Redactor) (around : option (value -> value))
    (expr : value) (options : option ComputeOptions)
    (done rest : list (string * value)) : result (list (string * value)) :=
  match rest with
  | [] => Ok done
  | (key, current) :: rest' =>
      let inside :=
        option_map (fun around current' =>
                      around (VObj (done ++ (key, current') :: rest'))) around in
      let* r := descend_field redact inside expr options current in
      descend_entries redact around expr options
        (match r with Some v => done ++ [(key, v)] | None => done end) rest'
  end.

(** the same over the members of an array document; a deleted index is a
    hole, read as [undefined] *)
Fixpoint descend_items (redact : Redactor) (around : option (value -> value))
    (expr : value) (options : option ComputeOptions)
    (done rest : list value) : result (list value) :=
  match rest with
  | [] => Ok done
  | current :: rest' =>
      let inside :=
        option_map (fun around current' => around (VArr (done ++ current' :: rest')))
                   around in
      let* r := descend_field redact inside expr options current in
      descend_items redact around expr options
        (done ++ [match r with Some v => v | None => VUndefined end]) rest'
  end.

(** [redactVariables]: each handler takes [(obj, expr, options)]; here
    [redact], which [$$DESCEND] calls back, and the surroundings of [obj]
    come first, and the handler returns what it returns and [obj] as it
    leaves it. *)
Definition RedactHandler : Type :=
  Redactor -> option (value -> value) -> value -> value -> option ComputeOptions ->
  result (value * value).

(** [$$DESCEND]: traverse nested documents iff there is a [$cond]. *)
Definition DESCEND : RedactHandler :=
  fun redact around obj expr options =>
    if negb (has_property expr "$cond") then Ok (obj, obj)
    else
      match obj with
      | VObj entries =>
          let* entries' := descend_entries redact around expr options [] entries in
          Ok (VObj entries', VObj entries')
      | VArr items =>
          let* items' := descend_items redact around expr options [] items in
          Ok (VArr items', VArr items')
      | _ => Ok (obj, obj)
      end.

Definition redactVariables : gmap string RedactHandler :=
  list_to_map
    [ ("$$KEEP", (fun redact around obj expr options => Ok (obj, obj)) : RedactHandler);
      ("$$PRUNE", (fun redact around obj expr options => Ok (VUndefined, obj))
                  : RedactHandler);
      ("$$DESCEND", DESCEND) ].

(** ** The evaluator *)

Section Evaluator.

(** [resolve] of [./util], the field-path primitive, is taken as it
    comes; [OPERATORS] is the registry at the time of the evaluation. *)
Variable resolve : value -> string -> option ResolveOptions -> value.
Variable OPERATORS : Registry.

(** [[EXPRESSION, ACCUMULATOR].some(c => has(OPERATORS[c], key))] *)
Definition is_operator_key (key : string) : bool :=
  existsb (fun c => has (table OPERATORS c) (VStr key)) [EXPRESSION; ACCUMULATOR].

(** [operator + ' expression must resolve to an array'] *)
Definition not_an_array (operator : option string) : error :=
  TypeError (match operator with Some name => name | None => "null" end
             ++ " expression must resolve to an array").

(** The [$]-prefixed string branch of [computeValue]. *)
Definition computeVariable (obj : value) (expr : string) (options : ComputeOptions) : value :=
  if has redactVariables (VStr expr) then VStr expr
  else
    let arr := split_dot expr in
    let arr0 := hd EmptyString arr in
    match get systemVariables (VStr arr0) with
    | Some variable =>
        (* has(systemVariables, arr[0]) *)
        let obj := variable obj VNull (assign_root obj (Some options)) in
        if Nat.eqb (length arr) 1 then obj
        else
          let expr := substr expr (String.length arr0) in
          resolve obj (substr expr 1) None
    | None => resolve obj (substr expr 1) None
    end.

Section Body.

(** The functions below are one unfolding of the recursion: [self]
    stands for the recursive calls and for what the operators are
    handed. *)
Variable self : Capabilities.

(** [each(expr, (val, key) => ...)] of [computeValue], from the entry
    [entries] on, with [res] the object built so far. *)
Fixpoint computeEntries (obj expr : value) (options : ComputeOptions)
    (entries res : list (string * value)) : result value :=
  match entries with
  | [] => Ok (VObj res)
  | (key, val) :: rest =>
      let* v := cap_computeValue self obj val (Some key) (Some options) in
      let res := set_entry key v res in
      if is_operator_key key then
        let* _ := assert (single_entry expr) (InvalidExpression expr) in
        Ok v
      else computeEntries obj expr options rest res
  end.

Definition computeValue_body (obj expr : value) (operator : option string)
    (options : option ComputeOptions) : result value :=
  let options := ensure_config options in
  match getOperator OPERATORS EXPRESSION operator with
  | Some call => call self obj expr (Some options)
  | None =>
      match getOperator OPERATORS ACCUMULATOR operator with
      | Some call =>
          let* obj := cap_computeValue self obj expr None (Some options) in
          let* _ := assert (isArray obj) (not_an_array operator) in
          call self obj VNull (Some options)
      | None =>
          match expr with
          | VStr (String "$" _ as s) =>
              (* isString(expr) && expr.length > 0 && expr[0] === '$' *)
              Ok (computeVariable obj s options)
          | VArr items =>
              let* items' :=
                mapM (fun item => cap_computeValue self obj item None (Some options)) items in
              Ok (VArr items')
          | VObj entries => computeEntries obj expr options entries []
          | _ => Ok expr
          end
      end
  end.

(** [each(expr, (val, key) => ...)] of [accumulate]; [expr[key]] is
    [val]. *)
Fixpoint accumulateEntries (collection expr : value) (options : option ComputeOptions)
    (entries res : list (string * value)) : result value :=
  match entries with
  | [] => Ok (VObj res)
  | (key, val) :: rest =>
      let* v := cap_accumulate self collection key val options in
      let res := set_entry key v res in
      match getOperator OPERATORS ACCUMULATOR (Some key) with
      | Some _ =>
          let* _ := assert (single_entry expr) (InvalidGroupExpression expr) in
          Ok v
      | None => accumulateEntries collection expr options rest res
      end
  end.

Definition accumulate_body (collection : value) (field : string) (expr : value)
    (options : option ComputeOptions) : result value :=
  match getOperator OPERATORS ACCUMULATOR (Some field) with
  | Some call => call self collection expr options
  | None =>
      match expr with
      | VObj entries => accumulateEntries collection expr options entries []
      | _ => Ok VUndefined
      end
  end.

End Body.

(** The bundle with [fuel] nested calls left. *)
Fixpoint capabilities (fuel : nat) : Capabilities :=
  match fuel with
  | O =>
      {| cap_accumulate := fun _ _ _ _ => OutOfFuel;
         cap_computeValue := fun _ _ _ _ => OutOfFuel;
         cap_resolve := resolve |}
  | S fuel' =>
      {| cap_accumulate := accumulate_body (capabilities fuel');
         cap_computeValue := computeValue_body (capabilities fuel');
         cap_resolve := resolve |}
  end.

Definition computeValue (fuel : nat) : value -> value -> option string ->
    option ComputeOptions -> result value :=
  cap_computeValue (capabilities fuel).

Definition accumulate (fuel : nat) : value -> string -> value ->
    option ComputeOptions -> result value :=
  cap_accumulate (capabilities fuel).

(** [redact] inside a bound document, or, with no surroundings, as it is
    first called. *)
Fixpoint redact_at (fuel : nat) (around : option (value -> value)) (obj expr : value)
    (options : option ComputeOptions) : result (value * value) :=
  match fuel with
  | O => OutOfFuel
  | S fuel' =>
      let options := live_options around obj options in
      let* r := computeValue fuel' obj expr None options in
      if has redactVariables r then
        match get redactVariables r with
        | Some handler =>
            handler (redact_at fuel') (bind_around around options) obj expr
                    (Some (assign_root obj (after_computeValue options)))
        | None => Throw (TypeError "redactVariables[result] is not a function")
        end
      else Ok (r, obj)
  end.

(** [redact(obj, expr, options)] *)
Definition redact (fuel : nat) (obj expr : value) (options : option ComputeOptions)
  : result value :=
  let* r := redact_at fuel None obj expr options in
  Ok (fst r).

End Evaluator.

(** ** Registration *)

(** [/^\$[a-zA-Z0-9_]*$/.test(op)] *)
Definition word_char (c : ascii) : bool :=
  let n := nat_of_ascii c in
  (Nat.leb 48 n && Nat.leb n 57) || (Nat.leb 65 n && Nat.leb n 90)
  || (Nat.leb 97 n && Nat.leb n 122) || Nat.eqb n 95.

Definition valid_operator_name (op : string) : bool :=
  match op with
  | String "$" rest => forallb word_char (list_ascii_of_string rest)
  | _ => false
  end.

(** The registry is one table for the whole process; registration reads and
    writes it, and a failed assertion leaves it as it is at that point. *)
Definition Registration (A : Type) : Type := Registry -> Registry * result A.

Definition reg_ret {A : Type} (a : A) : Registration A :=
  fun OPERATORS => (OPERATORS, Ok a).

Definition reg_bind {A B : Type} (m : Registration A) (k : A -> Registration B)
  : Registration B :=
  fun OPERATORS =>
    match m OPERATORS with
    | (OPERATORS', Ok a) => k a OPERATORS'
    | (OPERATORS', Throw e) => (OPERATORS', Throw e)
    | (OPERATORS', OutOfFuel) => (OPERATORS', OutOfFuel)
    end.

Notation "'let+' x ':=' m 'in' k" := (reg_bind m (fun x => k))
  (at level 10, x name, m at level 100, k at level 200,
   format "'[' 'let+'  x  ':='  m  'in' ']' '/' k").

Definition reg_assert (condition : bool) (e : error) : Registration unit :=
  fun OPERATORS => (OPERATORS, assert condition e).

Definition reg_getOperator (cls : OperatorType) (op : string)
  : Registration (option (Function cls)) :=
  fun OPERATORS => (OPERATORS, Ok (getOperator OPERATORS cls (Some op))).

Definition reg_useOperators (cls : OperatorType) (operators : gmap string (Function cls))
  : Registration unit :=
  fun OPERATORS => (useOperators cls operators OPERATORS, Ok tt).

(** a registered function is truthy *)
Definition truthy {A : Type} (call : option A) : bool :=
  match call with Some _ => true | None => false end.

Section Registration.

Variable resolve : value -> string -> option ResolveOptions -> value.

(** The wrapper [addOperators] puts around a raw operator of category
    [cls].  The binding of [this] to the group of new operators is not
    represented: an operator of the embedding is a closed function. *)
Definition wrap (cls : OperatorType) : RawFunction cls -> Function cls :=
  match cls return RawFunction cls -> Function cls with
  | QUERY => fun fn =>
      fun self selector value options obj =>
        (* value of field must be fully resolved. *)
        let lhs := resolve obj selector (Some {| unwrapArray := true |}) in
        fn self selector lhs value options
  | PROJECTION => fun fn =>
      fun self obj expr selector options =>
        let lhs := resolve obj selector None in
        fn self selector lhs expr options
  | ACCUMULATOR => fun fn => fn
  | EXPRESSION => fun fn => fn
  | PIPELINE => fun fn => fn
  end.

(** check for existing operators: the first [each] of [addOperators] *)
Fixpoint checkOperators (cls : OperatorType) (newOperators : list (string * RawFunction cls))
  : Registration unit :=
  match newOperators with
  | [] => reg_ret tt
  | (op, _) :: rest =>
      let+ _ := reg_assert (valid_operator_name op) (InvalidOperatorName op) in
      let+ call := reg_getOperator cls op in
      let+ _ := reg_assert (negb (truthy call)) (DuplicateOperator op cls) in
      checkOperators cls rest
  end.

(** [wrapped[op] = ...] for each new operator, in order *)
Definition wrapOperators (cls : OperatorType) (newOperators : list (string * RawFunction cls))
  : gmap string (Function cls) :=
  fold_left (fun wrapped entry => set_property (fst entry) (wrap cls (snd entry)) wrapped)
            newOperators ∅.

(** [addOperators(cls, operatorFn)], with [newOperators] what the factory
    [operatorFn] returns for the bundle. *)
Definition addOperators (cls : OperatorType) (newOperators : list (string * RawFunction cls))
  : Registration unit :=
  let+ _ := checkOperators cls newOperators in
  reg_useOperators cls (wrapOperators cls newOperators).

End Registration.

(** ** The [$floor] operator *)

(** The white space and line terminators that [Number] trims off a string:
    the ASCII ones, and, by their UTF-8 encodings, U+00A0, U+1680,
    U+2000 to U+200A, U+2028, U+2029, U+202F, U+205F, U+3000 and U+FEFF. *)
Definition is_space (c : ascii) : bool :=
  let n := nat_of_ascii c in
  (Nat.leb 9 n && Nat.leb n 13) || Nat.eqb n 32.

Definition is_space2 (c1 c2 : ascii) : bool :=
  Nat.eqb (nat_of_ascii c1) 194 && Nat.eqb (nat_of_ascii c2) 160.

Definition is_space3 (c1 c2 c3 : ascii) : bool :=
  let n1 := nat_of_ascii c1 in
  let n2 := nat_of_ascii c2 in
  let n3 := nat_of_ascii c3 in
  (Nat.eqb n1 225 && Nat.eqb n2 154 && Nat.eqb n3 128)
  || (Nat.eqb n1 226 && Nat.eqb n2 128
      && ((Nat.leb 128 n3 && Nat.leb n3 138) || Nat.eqb n3 168 || Nat.eqb n3 169
          || Nat.eqb n3 175))
  || (Nat.eqb n1 226 && Nat.eqb n2 129 && Nat.eqb n3 159)
  || (Nat.eqb n1 227 && Nat.eqb n2 128 && Nat.eqb n3 128)
  || (Nat.eqb n1 239 && Nat.eqb n2 187 && Nat.eqb n3 191).

(** the string without the white space it begins with *)
Fixpoint drop_spaces (l : list ascii) : list ascii :=
  match l with
  | [] => []
  | c1 :: l1 =>
      if is_space c1 then drop_spaces l1
      else
        match l1 with
        | [] => l
        | c2 :: l2 =>
            if is_space2 c1 c2 then drop_spaces l2
            else
              match l2 with
              | [] => l
              | c3 :: l3 => if is_space3 c1 c2 c3 then drop_spaces l3 else l
              end
        end
  end.

(** the string without the white space it ends with *)
Fixpoint drop_spaces_end (l : list ascii) : list ascii :=
  match l with
  | [] => []
  | c :: l' =>
      match drop_spaces l with
      | [] => []
      | _ => c :: drop_spaces_end l'
      end
  end.

Definition is_digit (c : ascii) : bool :=
  let n := nat_of_ascii c in Nat.leb 48 n && Nat.leb n 57.

Definition is_hex_digit (c : ascii) : bool :=
  let n := nat_of_ascii c in
  is_digit c || (Nat.leb 65 n && Nat.leb n 70) || (Nat.leb 97 n && Nat.leb n 102).

Definition is_octal_digit (c : ascii) : bool :=
  let n := nat_of_ascii c in Nat.leb 48 n && Nat.leb n 55.

Definition is_binary_digit (c : ascii) : bool :=
  let n := nat_of_ascii c in Nat.leb 48 n && Nat.leb n 49.

Fixpoint drop_while {A : Type} (p : A -> bool) (l : list A) : list A :=
  match l with
  | x :: l' => if p x then drop_while p l' else l
  | [] => []
  end.

Definition nonempty_all (p : ascii -> bool) (l : list ascii) : bool :=
  match l with [] => false | _ => forallb p l end.

Definition drop_sign (l : list ascii) : list ascii :=
  match l with
  | ("+" :: l')%char | ("-" :: l')%char => l'
  | _ => l
  end.

(** [ExponentPart] opt, then the end of the literal *)
Definition exponent_opt (l : list ascii) : bool :=
  match l with
  | [] => true
  | ("e" :: l')%char | ("E" :: l')%char => nonempty_all is_digit (drop_sign l')
  | _ => false
  end.

(** [StrUnsignedDecimalLiteral] *)
Definition unsigned_decimal (l : list ascii) : bool :=
  if String.eqb (string_of_list_ascii l) "Infinity" then true
  else
    let after_int := drop_while is_digit l in
    let has_int := negb (Nat.eqb (length after_int) (length l)) in
    match after_int with
    | ("." :: l')%char =>
        let after_frac := drop_while is_digit l' in
        let has_frac := negb (Nat.eqb (length after_frac) (length l')) in
        (has_int || has_frac) && exponent_opt after_frac
    | _ => has_int && exponent_opt after_int
    end.

(** [StrNumericLiteral] *)
Definition numeric_literal (l : list ascii) : bool :=
  match l with
  | ("0" :: "x" :: l')%char | ("0" :: "X" :: l')%char => nonempty_all is_hex_digit l'
  | ("0" :: "o" :: l')%char | ("0" :: "O" :: l')%char => nonempty_all is_octal_digit l'
  | ("0" :: "b" :: l')%char | ("0" :: "B" :: l')%char => nonempty_all is_binary_digit l'
  | _ => unsigned_decimal (drop_sign l)
  end.

(** Whether [Number(s)] is NaN for a string [s]: the string, white space
    at its ends aside, is not a [StringNumericLiteral]. *)
Definition string_isNaN (s : string) : bool :=
  let trimmed := drop_spaces_end (drop_spaces (list_ascii_of_string s)) in
  match trimmed with
  | [] => false
  | _ => negb (numeric_literal trimmed)
  end.

(** Whether [Number(String(v))] is NaN for an element [v] of an array, where
    a null or undefined element is the empty string and an array is its
    elements joined by commas. *)
Fixpoint element_isNaN (v : value) : bool :=
  match v with
  | VUndefined | VNull => false
  | VBool _ => true
  | VNum NaN => true
  | VNum _ => false
  | VStr s => string_isNaN s
  | VArr [] => false
  | VArr [x] => element_isNaN x
  | VArr _ => true
  | VObj _ => true
  end.

(** The global [isNaN(v)], which converts its argument to a number first. *)
Definition isNaN (v : value) : bool :=
  match v with
  | VUndefined => true
  | VNull | VBool _ => false
  | _ => element_isNaN v
  end.

(** Modelled from the spec: [isNumber] of [./util], a value of type number
    that is not NaN.  ([$floor] reads it only in [isNumber(n) || isNaN(n)],
    which is the same with or without the exclusion of NaN.) *)
Definition isNumber (v : value) : bool :=
  match v with
  | VNum NaN => false
  | VNum _ => true
  | _ => false
  end.

(** [Math.floor] on a number *)
Definition Math_floor (n : number) : number :=
  match n with
  | Finite q => Finite (inject_Z (Qfloor q))
  | _ => n
  end.

(** [$floor(obj, expr, options)].  Past the assertion a value that is not a
    number converts to NaN, of which [Math.floor] is NaN. *)
Definition dollar_floor : Operator :=
  fun self obj expr options =>
    let* n := cap_computeValue self obj expr None options in
    if isNil n then Ok VNull
    else
      let* _ := assert (isNumber n || isNaN n)
                       (TypeError "$floor expression must resolve to a number.") in
      Ok (VNum (match n with VNum x => Math_floor x | _ => NaN end)).

(** ** Notions used in the statements *)

(** a segment of a dotted path *)
Definition no_dot (segment : string) : bool :=
  forallb (fun c => negb (Ascii.eqb c ".")) (list_ascii_of_string segment).

(** what the checks of [addOperators] find wrong with a name *)
Definition rejected (cls : OperatorType) (OPERATORS : Registry) (op : string) (e : error)
  : Prop :=
  (valid_operator_name op = false /\ e = InvalidOperatorName op)
  \/ (valid_operator_name op = true
      /\ is_Some (getOperator OPERATORS cls (Some op))
      /\ e = DuplicateOperator op cls).

(** the value of the entry evaluates under the key of the entry *)
Definition plain_entry (resolve : value -> string -> option ResolveOptions -> value)
    (OPERATORS : Registry) (fuel : nat) (obj : value) (options : option ComputeOptions)
    (entry : string * value) : Prop :=
  exists v,
    computeValue resolve OPERATORS fuel obj (snd entry) (Some (fst entry)) options = Ok v.

(** the value of the entry accumulates under the key of the entry *)
Definition plain_group_entry (resolve : value -> string -> option ResolveOptions -> value)
    (OPERATORS : Registry) (fuel : nat) (collection : value)
    (options : option ComputeOptions) (entry : string * value) : Prop :=
  exists v,
    accumulate resolve OPERATORS fuel collection (fst entry) (snd entry) options = Ok v.

(** every name of the batch passes both checks of [addOperators] *)
Definition acceptable (cls : OperatorType) (OPERATORS : Registry)
    (newOperators : list (string * RawFunction cls)) : Prop :=
  Forall (fun entry => valid_operator_name (fst entry) = true
                       /\ getOperator OPERATORS cls (Some (fst entry)) = None)
         newOperators.

#[global] Instance OperatorType_eq_dec : EqDecision OperatorType.
Proof. solve_decision. Defined.

(** the nesting of arrays and mappings in a value *)
Fixpoint depth (v : value) : nat :=
  match v with
  | VArr items => S (list_max (map depth items))
  | VObj entries => S (list_max (map (fun entry => depth (snd entry)) entries))
  | _ => 0
  end.

(** no mapping inside the expression has a key registered as an expression
    operator or an accumulator *)
Fixpoint operator_free (OPERATORS : Registry) (v : value) : bool :=
  match v with
  | VArr items => forallb (operator_free OPERATORS) items
  | VObj entries =>
      forallb (fun entry => negb (is_operator_key OPERATORS (fst entry))
                            && operator_free OPERATORS (snd entry)) entries
  | _ => true
  end.

(** a property name that an assignment stores where it arrives: not
    [__proto__], and not a string of digits, which JavaScript would list
    before the other names *)
Definition ordinary_key (key : string) : bool :=
  negb (String.eqb key proto_key)
  && negb (nonempty_all is_digit (list_ascii_of_string key)).

(** at every level, the own properties of an object have distinct, ordinary
    names *)
Fixpoint ordinary_keys (v : value) : Prop :=
  match v with
  | VArr items => fold_right (fun item P => ordinary_keys item /\ P) True items
  | VObj entries =>
      (NoDup (map fst entries)
       /\ Forall (fun entry => ordinary_key (fst entry) = true) entries)
      /\ fold_right (fun entry P => ordinary_keys (snd entry) /\ P) True entries
  | _ => True
  end.

(** no string inside the expression begins with [$] *)
Fixpoint variable_free (v : value) : bool :=
  match v with
  | VStr (String "$" _) => false
  | VArr items => forallb variable_free items
  | VObj entries => forallb (fun entry => variable_free (snd entry)) entries
  | _ => true
  end.

(** a value that is neither an array nor an object *)
Definition scalar (v : value) : bool :=
  match v with VArr _ | VObj _ => false | _ => true end.

(** the surroundings of an object of which only the first fields are
    given: [later] are the fields that follow them *)
Definition fields_to_come (later : list (string * value))
    (around : option (value -> value)) : option (value -> value) :=
  option_map (fun around obj =>
                around (match obj with
                        | VObj fields => VObj (fields ++ later)
                        | _ => obj
                        end)) around.

(** the surroundings of the field [key] of an object, between the fields
    [done] and [later] *)
Definition field_of (done : list (string * value)) (key : string)
    (later : list (string * value)) (around : option (value -> value))
  : option (value -> value) :=
  option_map (fun around current => around (VObj (done ++ (key, current) :: later))) around.

(** ** Sample operators and documents

    The registry is open: these are operators of the kind the operator
    modules register, used to run the evaluator on concrete inputs. *)

(** Modelled from the spec: [resolve] of [./util], as far as the
    specification describes it: the traversal of a dotted path through
    nested documents, and with [unwrapArray] the unwrapping of a
    single-element array. *)
Fixpoint resolve_segments (v : value) (path : list string) : value :=
  match path with
  | [] => v
  | field :: rest =>
      match v with
      | VObj entries =>
          match lookup_entry field entries with
          | Some w => resolve_segments w rest
          | None => VUndefined
          end
      | _ => VUndefined
      end
  end.

Definition resolve_path (obj : value) (selector : string) (options : option ResolveOptions)
  : value :=
  let v := resolve_segments obj (split_dot selector) in
  match options, v with
  | Some {| unwrapArray := true |}, VArr [x] => x
  | _, _ => v
  end.

Module Samples.

(** the members of a group seen through [expr]: a nil [expr] takes them as
    they are *)
Definition members (self : Capabilities) (items : list value) (expr : value)
    (options : option ComputeOptions) : result (list value) :=
  if isNil expr then Ok items
  else mapM (fun item => cap_computeValue self item expr None options) items.

Definition finite_numbers (vs : list value) : list Q :=
  flat_map (fun v => match v with VNum (Finite q) => [q] | _ => [] end) vs.

Definition total (qs : list Q) : Q := fold_right Qplus (inject_Z 0) qs.

(** an accumulator in the manner of [$sum]: adds up the finite numbers
    among the members of the group *)
Definition sum : Operator :=
  fun self collection expr options =>
    match collection with
    | VArr items =>
        let* vs := members self items expr options in
        Ok (VNum (Finite (total (finite_numbers vs))))
    | _ => Ok (int 0)
    end.

(** an accumulator in the manner of [$avg]: their mean *)
Definition avg : Operator :=
  fun self collection expr options =>
    match collection with
    | VArr items =>
        let* vs := members self items expr options in
        let qs := finite_numbers vs in
        Ok (VNum (Finite (Qred (total qs / inject_Z (Z.of_nat (Nat.max 1 (length qs)))))))
    | _ => Ok (int 0)
    end.

(** an accumulator with a precondition of its own: its argument must be a
    number *)
Definition scale : Operator :=
  fun self collection expr options =>
    let* _ := assert (isNumber expr) (TypeError "$scale expects a number") in
    Ok expr.

(** an expression operator that evaluates its argument against a nested
    document, with the options it was handed *)
Definition within_child : Operator :=
  fun self obj expr options =>
    cap_computeValue self (cap_resolve self obj "child" None) expr None options.

(** a query operator in the manner of [$exists]: whether the resolved field
    is there, compared with what is asked *)
Definition field_exists : SelectorOperator :=
  fun self selector lhs value options =>
    Ok (VBool (Bool.eqb (negb (isNil lhs))
                        (match value with VBool b => b | _ => true end))).

Definition accumulators : Registry :=
  useOperators ACCUMULATOR (list_to_map [("$sum", sum); ("$avg", avg); ("$scale", scale)])
    empty_registry.

Definition operators : Registry :=
  useOperators EXPRESSION (list_to_map [("$floor", dollar_floor); ("$within", within_child)])
    accumulators.

(** what JavaScript takes for true in a condition *)
Definition truthy_value (v : value) : bool :=
  match v with
  | VUndefined | VNull | VBool false | VNum NaN | VStr EmptyString => false
  | VNum (Finite q) => negb (Qeq_bool q 0)
  | _ => true
  end.

(** an expression operator in the manner of [$cond], on the object form
    [{if, then, else}]: evaluates the condition, then the branch it selects *)
Definition cond : Operator :=
  fun self obj expr options =>
    match expr with
    | VObj entries =>
        let branch name :=
          match lookup_entry name entries with Some e => e | None => VUndefined end in
        let* test := cap_computeValue self obj (branch "if") None options in
        cap_computeValue self obj (branch (if truthy_value test then "then" else "else"))
          None options
    | _ => Throw (TypeError "$cond expects an object")
    end.

(** the operators above and [$cond] *)
Definition redacting : Registry :=
  useOperators EXPRESSION {["$cond" := cond]} operators.

(** prune what holds a true [secret], descend into the rest *)
Definition hide_secrets : value :=
  VObj [("$cond", VObj [("if", VStr "$secret");
                        ("then", VStr "$$PRUNE");
                        ("else", VStr "$$DESCEND")])].

Definition archive : value :=
  VObj [("name", VStr "y");
        ("inner", VObj [("secret", VBool true); ("data", int 1)]);
        ("list", VArr [VObj [("secret", VBool true)]; VObj [("ok", int 1)]; int 5; VNull]);
        ("open", VObj [("data", int 2)])].

Definition no_options : option ComputeOptions := Some {| config := None; root := None |}.

Definition doc_ab : value := VObj [("a", VObj [("b", int 1)])].

Definition family : value :=
  VObj [("name", VStr "top"); ("child", VObj [("name", VStr "nested")])].

(** prune what is marked [kill] as long as the root has a field [a], keep
    it once the root has none; descend into what is not marked *)
Definition kill_while_a : value :=
  VObj [("$cond",
         VObj [("if", VStr "$kill");
               ("then", VObj [("$cond", VObj [("if", VStr "$$ROOT.a");
                                              ("then", VStr "$$PRUNE");
                                              ("else", VStr "$$KEEP")])]);
               ("else", VStr "$$DESCEND")])].

Definition marked : value :=
  VObj [("a", VObj [("kill", VBool true)]);
        ("b", VObj [("c", VObj [("kill", VBool true)])])].

End Samples.

(** * Properties *)

(** ** The definitions on concrete inputs *)

Example split_dot_path : split_dot "$$ROOT.a.b" = ["$$ROOT"; "a"; "b"].
Proof. reflexivity. Qed.

Example split_dot_empty : split_dot "" = [""].
Proof. reflexivity. Qed.

Example substr_path : substr (substr "$$ROOT.a.b" (String.length "$$ROOT")) 1 = "a.b".
Proof. reflexivity. Qed.

Example has_redact_keep : has redactVariables (VStr "$$KEEP") = true.
Proof. reflexivity. Qed.

Example has_redact_root : has redactVariables (VStr "$$ROOT") = false.
Proof. reflexivity. Qed.

Example has_system_root : has systemVariables (VStr "$$ROOT") = true.
Proof. reflexivity. Qed.

Example isNaN_abc : isNaN (VStr "abc") = true.
Proof. reflexivity. Qed.

Example isNaN_numeric_strings :
  map (fun s => isNaN (VStr s))
      ["12"; " 12.5e3 "; "-.5"; "0x1F"; ""; "Infinity"; "1e"; "+-1"; "1,2"; "."; "5."]
  = [false; false; false; false; false; false; true; true; true; true; false].
Proof. reflexivity. Qed.

Example isNaN_arrays :
  map isNaN [VArr []; VArr [int 5]; VArr [int 1; int 2]; VArr [VStr "x"]; VObj []; VBool true]
  = [false; false; true; true; true; false].
Proof. reflexivity. Qed.

Example computeValue_sum_literal :
  computeValue resolve_path Samples.operators 4 Samples.doc_ab
    (VObj [("$sum", VArr [int 1; int 2; int 3])]) None Samples.no_options
  = Ok (int 6).
Proof. reflexivity. Qed.

Example accumulate_avg_field :
  accumulate resolve_path Samples.operators 3
    (VArr [VObj [("a", int 1)]; VObj [("a", int 2)]; VObj [("a", int 3)]])
    "$avg" (VStr "$a") Samples.no_options
  = Ok (int 2).
Proof. reflexivity. Qed.

Example accumulate_sum_field :
  accumulate resolve_path Samples.operators 3
    (VArr [VObj [("a", int 1)]; VObj [("a", int 2)]; VObj [("a", int 3)]])
    "$sum" (VStr "$a") Samples.no_options
  = Ok (int 6).
Proof. reflexivity. Qed.

Example computeValue_path :
  computeValue resolve_path Samples.operators 1 Samples.doc_ab (VStr "$a.b") None None
  = Ok (int 1).
Proof. reflexivity. Qed.

Example computeValue_remove :
  computeValue resolve_path Samples.operators 1 Samples.doc_ab (VStr "$$REMOVE") None None
  = Ok VUndefined.
Proof. reflexivity. Qed.

Example redact_keep :
  redact resolve_path Samples.operators 2 Samples.doc_ab (VStr "$$KEEP") Samples.no_options
  = Ok Samples.doc_ab.
Proof. reflexivity. Qed.

(** ** Unfolding the evaluator *)

Section EvaluatorFacts.

Variable resolve : value -> string -> option ResolveOptions -> value.
Variable OPERATORS : Registry.

Lemma computeValue_unfold fuel obj expr operator options :
  computeValue resolve OPERATORS (S fuel) obj expr operator options
  = computeValue_body resolve OPERATORS (capabilities resolve OPERATORS fuel)
      obj expr operator options.
Proof. reflexivity. Qed.

Lemma accumulate_unfold fuel collection field expr options :
  accumulate resolve OPERATORS (S fuel) collection field expr options
  = accumulate_body OPERATORS (capabilities resolve OPERATORS fuel)
      collection field expr options.
Proof. reflexivity. Qed.

Lemma ensure_config_twice options :
  ensure_config (Some (ensure_config options)) = ensure_config options.
Proof. destruct options as [[[c|] r]|]; reflexivity. Qed.

(** [computeValue] writes the default configuration into its options before
    anything else, so it cannot tell options that already went through it
    from the ones it was first given. *)
Lemma computeValue_ensure_config fuel obj expr operator options :
  computeValue resolve OPERATORS fuel obj expr operator (Some (ensure_config options))
  = computeValue resolve OPERATORS fuel obj expr operator options.
Proof.
  destruct fuel as [|fuel]; [reflexivity|].
  rewrite !computeValue_unfold. unfold computeValue_body.
  rewrite ensure_config_twice. reflexivity.
Qed.

(** The options of the recursive calls hold the root they held on entry:
    writing the configuration binds none. *)
Lemma ensure_config_root options :
  root (ensure_config options) = match options with Some o => root o | None => None end.
Proof. destruct options as [[c r]|]; reflexivity. Qed.

Lemma getOperator_lookup cls name :
  getOperator OPERATORS cls (Some name) = table OPERATORS cls !! name.
Proof.
  unfold getOperator, has. destruct (table OPERATORS cls !! name); reflexivity.
Qed.

Lemma getOperator_null cls : getOperator OPERATORS cls None = None.
Proof. reflexivity. Qed.

End EvaluatorFacts.

(** ** Accumulators reached from [computeValue] *)




(** ** [accumulate] on an expression that is neither operator nor mapping *)

(** C8. When [field] is not the name of a registered accumulator and [expr]
    is not a mapping, [accumulate] returns [undefined]; it raises nothing. *)
Theorem accumulate_undefined
    (resolve : value -> string -> option ResolveOptions -> value) (OPERATORS : Registry)
    (fuel : nat) (collection : value) (field : string) (expr : value)
    (options : option ComputeOptions)
    (Hfield : getOperator OPERATORS ACCUMULATOR (Some field) = None)
    (Hexpr : isObject expr = false) :
  accumulate resolve OPERATORS (S fuel) collection field expr options = Ok VUndefined.
Proof.
  rewrite accumulate_unfold. unfold accumulate_body. rewrite Hfield.
  destruct expr; try reflexivity. discriminate Hexpr.
Qed.

Lemma accumulate_undefined_witness :
  accumulate resolve_path Samples.operators 1 (VArr [Samples.doc_ab]) "$group" (VStr "$a")
    Samples.no_options = Ok VUndefined.
Proof.
  apply (accumulate_undefined resolve_path Samples.operators 0 (VArr [Samples.doc_ab])
           "$group" (VStr "$a") Samples.no_options); reflexivity.
Defined.

(** ** System variables *)

Lemma systemVariables_names name variable :
  systemVariables !! name = Some variable ->
  name = "$$ROOT" \/ name = "$$CURRENT" \/ name = "$$REMOVE".
Proof.
  unfold systemVariables. cbn [list_to_map foldr uncurry fst snd].
  intros H.
  destruct (decide (name = "$$ROOT")) as [|Hroot]; [tauto|].
  rewrite lookup_insert_ne in H by congruence.
  destruct (decide (name = "$$CURRENT")) as [|Hcurrent]; [tauto|].
  rewrite lookup_insert_ne in H by congruence.
  destruct (decide (name = "$$REMOVE")) as [|Hremove]; [tauto|].
  rewrite lookup_insert_ne in H by congruence.
  rewrite lookup_empty in H. discriminate H.
Qed.

Lemma redactVariables_names name handler :
  redactVariables !! name = Some handler ->
  name = "$$KEEP" \/ name = "$$PRUNE" \/ name = "$$DESCEND".
Proof.
  unfold redactVariables. cbn [list_to_map foldr uncurry fst snd].
  intros H.
  destruct (decide (name = "$$KEEP")) as [|Hkeep]; [tauto|].
  rewrite lookup_insert_ne in H by congruence.
  destruct (decide (name = "$$PRUNE")) as [|Hprune]; [tauto|].
  rewrite lookup_insert_ne in H by congruence.
  destruct (decide (name = "$$DESCEND")) as [|Hdescend]; [tauto|].
  rewrite lookup_insert_ne in H by congruence.
  rewrite lookup_empty in H. discriminate H.
Qed.

Lemma split_dot_nonempty s : split_dot s <> [].
Proof.
  destruct s as [|c s]; simpl; [discriminate|].
  destruct (Ascii.eqb c "."); [discriminate|].
  destruct (split_dot s); discriminate.
Qed.

Lemma split_dot_segment segment rest :
  no_dot segment = true ->
  split_dot (segment ++ "." ++ rest)%string = segment :: split_dot rest.
Proof.
  unfold no_dot. induction segment as [|c segment IH]; simpl; intros H.
  - reflexivity.
  - apply andb_prop in H as [Hc Hrest].
    destruct (Ascii.eqb c "."); [discriminate Hc|].
    rewrite (IH Hrest). reflexivity.
Qed.

Lemma substr_segment segment rest :
  substr (segment ++ rest)%string (String.length segment) = rest.
Proof. induction segment as [|c segment IH]; simpl; auto. Qed.

(** C7. A [$]-prefixed string whose first segment names a system variable
    and which has further segments evaluates to the rest of the path,
    resolved against what the system variable returns; for the document
    [{a: {b: 1}}], [computeValue(doc, '$$ROOT.a.b', null, {})] is [1]. *)
Theorem computeValue_system_variable_path :
  (forall (resolve : value -> string -> option ResolveOptions -> value)
          (OPERATORS : Registry) (fuel : nat) (obj : value) (name rest : string)
          (variable : value -> value -> ComputeOptions -> value)
          (operator : option string) (options : option ComputeOptions),
      getOperator OPERATORS EXPRESSION operator = None ->
      getOperator OPERATORS ACCUMULATOR operator = None ->
      systemVariables !! name = Some variable ->
      computeValue resolve OPERATORS (S fuel) obj (VStr (name ++ "." ++ rest)) operator options
      = Ok (resolve
              (variable obj VNull (assign_root obj (Some (ensure_config options))))
              rest None))
  /\ (forall (OPERATORS : Registry) (fuel : nat),
        computeValue resolve_path OPERATORS (S fuel) (VObj [("a", VObj [("b", int 1)])])
          (VStr "$$ROOT.a.b") None (Some {| config := None; root := None |})
        = Ok (int 1)).
Proof.
  assert (Hgeneral :
    forall resolve OPERATORS fuel obj name rest variable operator options,
      getOperator OPERATORS EXPRESSION operator = None ->
      getOperator OPERATORS ACCUMULATOR operator = None ->
      systemVariables !! name = Some variable ->
      computeValue resolve OPERATORS (S fuel) obj (VStr (name ++ "." ++ rest)) operator options
      = Ok (resolve
              (variable obj VNull (assign_root obj (Some (ensure_config options))))
              rest None)).
  { intros resolve OPERATORS fuel obj name rest variable operator options Hexp Hacc Hvar.
    rewrite computeValue_unfold. unfold computeValue_body. rewrite Hexp, Hacc.
    assert (Hshape : exists tail, name = String "$" tail /\ no_dot name = true).
    { destruct (systemVariables_names _ _ Hvar) as [->|[->| ->]];
        eexists; split; reflexivity. }
    destruct Hshape as (tail & Hname & Hdots).
    assert (Hredact : has redactVariables (VStr (name ++ "." ++ rest)) = false).
    { unfold has.
      destruct (redactVariables !! (name ++ "." ++ rest)%string) as [handler|] eqn:Hlook;
        [|reflexivity].
      exfalso.
      destruct (systemVariables_names _ _ Hvar) as [->|[->| ->]];
        destruct (redactVariables_names _ _ Hlook) as [H|[H|H]]; discriminate H. }
    assert (Hvariable :
      computeVariable resolve obj (name ++ "." ++ rest) (ensure_config options)
      = resolve (variable obj VNull (assign_root obj (Some (ensure_config options))))
          rest None).
    { unfold computeVariable. rewrite Hredact.
      rewrite (split_dot_segment name rest Hdots). cbn [hd get length].
      rewrite Hvar.
      destruct (split_dot rest) as [|seg segs] eqn:Hsplit;
        [exact (False_ind _ (split_dot_nonempty rest Hsplit))|].
      cbn [length Nat.eqb].
      rewrite substr_segment. change (substr ("." ++ rest)%string 1) with rest.
      reflexivity. }
    rewrite <- Hvariable. rewrite Hname. reflexivity. }
  split; [exact Hgeneral|].
  intros OPERATORS fuel.
  rewrite (Hgeneral resolve_path OPERATORS fuel _ "$$ROOT" "a.b" _ None _
             eq_refl eq_refl eq_refl).
  reflexivity.
Qed.

Lemma computeValue_system_variable_path_witness :
  computeValue resolve_path Samples.operators 1 Samples.family
    (VStr "$$CURRENT.child.name") None None = Ok (VStr "nested").
Proof.
  exact (proj1 computeValue_system_variable_path resolve_path Samples.operators 0
           Samples.family "$$CURRENT" "child.name" (fun obj _ _ => obj) None None
           eq_refl eq_refl eq_refl).
Defined.

(** ** [redact] *)

Lemma has_redactVariables_names (v : value) :
  has redactVariables v = true ->
  v = VStr "$$KEEP" \/ v = VStr "$$PRUNE" \/ v = VStr "$$DESCEND".
Proof.
  destruct v as [| | | |name| |]; simpl; try discriminate.
  destruct (redactVariables !! name) as [handler|] eqn:Hlook; [|discriminate].
  intros _. destruct (redactVariables_names _ _ Hlook) as [->|[->| ->]]; auto.
Qed.

(** C4. [redact] first computes [computeValue(document, expr, null,
    options)].  If the result is the literal [$$KEEP] the document is
    returned as it is; if it is [$$PRUNE] the absent value is returned; if it
    is [$$DESCEND] and [expr] has no [$cond] entry the document is returned
    as it is, with no recursion; a result that is none of the three names
    is returned unchanged, and a failure of the computation is the failure
    of [redact]. *)
Theorem redact_dispatch
    (resolve : value -> string -> option ResolveOptions -> value) (OPERATORS : Registry)
    (fuel : nat) (obj expr : value) (options : option ComputeOptions) :
  let computed := computeValue resolve OPERATORS fuel obj expr None options in
  let redacted := redact resolve OPERATORS (S fuel) obj expr options in
  (computed = Ok (VStr "$$KEEP") -> redacted = Ok obj)
  /\ (computed = Ok (VStr "$$PRUNE") -> redacted = Ok VUndefined)
  /\ (computed = Ok (VStr "$$DESCEND") -> has_property expr "$cond" = false ->
        redacted = Ok obj)
  /\ (forall r, computed = Ok r ->
        r <> VStr "$$KEEP" -> r <> VStr "$$PRUNE" -> r <> VStr "$$DESCEND" ->
        redacted = Ok r)
  /\ (forall e, computed = Throw e -> redacted = Throw e).
Proof.
  intros computed redacted. subst redacted. unfold redact.
  cbn [redact_at live_options]. fold computed.
  repeat split.
  - intros ->. reflexivity.
  - intros ->. reflexivity.
  - intros -> Hcond. cbn [bind]. change (has redactVariables (VStr "$$DESCEND")) with true.
    cbv iota. change (get redactVariables (VStr "$$DESCEND")) with (Some DESCEND).
    cbv iota. unfold DESCEND. rewrite Hcond. reflexivity.
  - intros r -> Hkeep Hprune Hdescend. cbn [bind].
    destruct (has redactVariables r) eqn:Hhas; [|reflexivity].
    destruct (has_redactVariables_names r Hhas) as [?|[?|?]]; contradiction.
  - intros e ->. reflexivity.
Qed.

Lemma redact_dispatch_witness :
  redact resolve_path Samples.operators 2
    (VObj [("secret", VStr "x"); ("name", VStr "y")]) (VStr "$$DESCEND") Samples.no_options
  = Ok (VObj [("secret", VStr "x"); ("name", VStr "y")])
  /\ redact resolve_path Samples.operators 2
       (VObj [("secret", VStr "x"); ("name", VStr "y")]) (VStr "$$PRUNE") Samples.no_options
     = Ok VUndefined
  /\ redact resolve_path Samples.operators 2
       (VObj [("secret", VStr "x"); ("name", VStr "y")]) (VStr "$name") Samples.no_options
     = Ok (VStr "y").
Proof.
  pose proof (redact_dispatch resolve_path Samples.operators 1
                (VObj [("secret", VStr "x"); ("name", VStr "y")]) (VStr "$$DESCEND")
                Samples.no_options) as (_ & _ & Hdescend & _).
  pose proof (redact_dispatch resolve_path Samples.operators 1
                (VObj [("secret", VStr "x"); ("name", VStr "y")]) (VStr "$$PRUNE")
                Samples.no_options) as (_ & Hprune & _).
  pose proof (redact_dispatch resolve_path Samples.operators 1
                (VObj [("secret", VStr "x"); ("name", VStr "y")]) (VStr "$name")
                Samples.no_options) as (_ & _ & _ & Hother & _).
  split; [exact (Hdescend eq_refl eq_refl)|].
  split; [exact (Hprune eq_refl)|].
  apply (Hother (VStr "y") eq_refl); discriminate.
Defined.

(** ** [$floor] *)

(** C10. When the argument of [$floor] resolves to null or to the absent
    value, [$floor] returns null and raises nothing. *)
Theorem floor_nil
    (resolve : value -> string -> option ResolveOptions -> value) (OPERATORS : Registry)
    (fuel : nat) (obj expr : value) (options : option ComputeOptions) (n : value)
    (Hresolved : computeValue resolve OPERATORS fuel obj expr None options = Ok n)
    (Hnil : isNil n = true) :
  dollar_floor (capabilities resolve OPERATORS fuel) obj expr options = Ok VNull.
Proof.
  unfold dollar_floor. fold (computeValue resolve OPERATORS fuel).
  rewrite Hresolved. cbn [bind]. rewrite Hnil. reflexivity.
Qed.

Lemma floor_nil_witness :
  dollar_floor (capabilities resolve_path Samples.operators 1) Samples.doc_ab
    (VStr "$missing") Samples.no_options = Ok VNull
  /\ computeValue resolve_path Samples.operators 3 Samples.doc_ab
       (VObj [("$floor", VNull)]) None Samples.no_options = Ok VNull.
Proof.
  split.
  - apply (floor_nil resolve_path Samples.operators 1 Samples.doc_ab (VStr "$missing")
             Samples.no_options VUndefined); reflexivity.
  - exact (floor_nil resolve_path Samples.operators 1 Samples.doc_ab VNull
             (Some (ensure_config Samples.no_options)) VNull eq_refl eq_refl).
Defined.

(** What [$floor] returns once its argument has resolved to [n]. *)
Lemma floor_resolved
    (resolve : value -> string -> option ResolveOptions -> value) (OPERATORS : Registry)
    (fuel : nat) (obj expr : value) (options : option ComputeOptions) (n : value) :
  computeValue resolve OPERATORS fuel obj expr None options = Ok n ->
  dollar_floor (capabilities resolve OPERATORS fuel) obj expr options
  = if isNil n then Ok VNull
    else
      let* _ := assert (isNumber n || isNaN n)
                       (TypeError "$floor expression must resolve to a number.") in
      Ok (VNum (match n with VNum x => Math_floor x | _ => NaN end)).
Proof.
  intros Hresolved. unfold dollar_floor. fold (computeValue resolve OPERATORS fuel).
  rewrite Hresolved. reflexivity.
Qed.




(** a string that reads as a number between no-break spaces is no NaN for
    [isNaN], and [$floor] rejects it *)
Example floor_no_break_space :
  isNaN (VStr (String (ascii_of_nat 194) (String (ascii_of_nat 160) "12"))) = false
  /\ dollar_floor (capabilities resolve_path Samples.operators 1) Samples.doc_ab
       (VStr (String (ascii_of_nat 194) (String (ascii_of_nat 160) "12")))
       Samples.no_options
     = Throw (TypeError "$floor expression must resolve to a number.").
Proof. split; reflexivity. Qed.

Example floor_seven_halves :
  dollar_floor (capabilities resolve_path Samples.operators 1)
    (VObj [("a", VNum (Finite (7 # 2)))]) (VStr "$a") Samples.no_options = Ok (int 3).
Proof. reflexivity. Qed.

(** What the assertion of [$floor] lets through besides numbers: a string
    that does not read as a number resolves to itself, is taken for NaN by
    [isNaN], and [$floor] returns NaN where its message asks for a
    number. *)
Lemma floor_string_not_rejected :
  dollar_floor (capabilities resolve_path Samples.operators 1) Samples.doc_ab
    (VStr "abc") Samples.no_options = Ok (VNum NaN).
Proof. reflexivity. Qed.

(** ** The root of an evaluation *)

(** A root bound in the options on entry is what [$$ROOT] returns, whatever
    the current document. *)
Lemma computeVariable_root_bound
    (resolve : value -> string -> option ResolveOptions -> value)
    (obj r : value) (c : option Config) :
  computeVariable resolve obj "$$ROOT" {| config := c; root := Some r |} = r.
Proof. reflexivity. Qed.

(** With no root in the options, [$$ROOT] returns the current document of
    the call that resolves it. *)
Lemma computeVariable_root_unbound
    (resolve : value -> string -> option ResolveOptions -> value)
    (obj : value) (c : option Config) :
  computeVariable resolve obj "$$ROOT" {| config := c; root := None |} = obj.
Proof. reflexivity. Qed.

(** C1, on the input where the code leaves it.  One call of [computeValue]
    on the document [{name: 'top', child: {name: 'nested'}}] with options
    that bind no root: the entry [a] resolves [$$ROOT.name] to ['top'], and
    the entry [b], whose operator evaluates its argument against the nested
    document with the options it was handed, resolves the same path to
    ['nested'].  The object with the root, [{ root: obj } ∪ options], goes to
    the handler of the system variable alone; the options of the recursive
    calls never hold it.  With the root bound on entry both entries give
    ['top']. *)
Theorem computeValue_root_not_threaded :
  let expr := VObj [("a", VStr "$$ROOT.name");
                    ("b", VObj [("$within", VStr "$$ROOT.name")])] in
  computeValue resolve_path Samples.operators 4 Samples.family expr None
    (Some {| config := None; root := None |})
  = Ok (VObj [("a", VStr "top"); ("b", VStr "nested")])
  /\ computeValue resolve_path Samples.operators 4 Samples.family expr None
       (Some {| config := None; root := Some Samples.family |})
     = Ok (VObj [("a", VStr "top"); ("b", VStr "top")]).
Proof. split; reflexivity. Qed.

(** ** Registration *)

Section RegistrationFacts.

Variable resolve : value -> string -> option ResolveOptions -> value.
Variable cls : OperatorType.

(** The checks only read the registry. *)
Lemma checkOperators_reads (newOperators : list (string * RawFunction cls)) OPERATORS :
  fst (checkOperators cls newOperators OPERATORS) = OPERATORS.
Proof.
  induction newOperators as [|[op fn] rest IH]; [reflexivity|].
  cbn [checkOperators]. unfold reg_bind, reg_assert, reg_getOperator, assert.
  destruct (valid_operator_name op); [|reflexivity].
  destruct (getOperator OPERATORS cls (Some op)); [reflexivity|].
  exact IH.
Qed.

(** The checks fail on the first name, in the order of the batch, that
    does not match the pattern or is registered already. *)
Lemma checkOperators_first (newOperators : list (string * RawFunction cls)) OPERATORS :
  match snd (checkOperators cls newOperators OPERATORS) with
  | Ok _ =>
      Forall (fun entry => valid_operator_name (fst entry) = true
                           /\ getOperator OPERATORS cls (Some (fst entry)) = None)
             newOperators
  | Throw e =>
      exists before op fn after,
        newOperators = before ++ (op, fn) :: after
        /\ Forall (fun entry => valid_operator_name (fst entry) = true
                                /\ getOperator OPERATORS cls (Some (fst entry)) = None)
                  before
        /\ rejected cls OPERATORS op e
  | OutOfFuel => False
  end.
Proof.
  induction newOperators as [|[op fn] rest IH]; [constructor|].
  cbn [checkOperators]. unfold reg_bind, reg_assert, reg_getOperator, assert.
  destruct (valid_operator_name op) eqn:Hvalid; cbn [fst snd].
  - destruct (getOperator OPERATORS cls (Some op)) as [call|] eqn:Hcall; cbn [truthy negb snd].
    + exists [], op, fn, rest. split; [reflexivity|]. split; [constructor|].
      right. rewrite Hcall. eauto.
    + destruct (checkOperators cls rest OPERATORS) as [OPERATORS' [u|e|]]; cbn [snd] in *.
      * constructor; [split; assumption|exact IH].
      * destruct IH as (before & op' & fn' & after & -> & Hbefore & Hrejected).
        exists ((op, fn) :: before), op', fn', after.
        split; [reflexivity|]. split; [|exact Hrejected].
        constructor; [split; assumption|exact Hbefore].
      * exact IH.
  - exists [], op, fn, rest. split; [reflexivity|]. split; [constructor|].
    left. split; [exact Hvalid|reflexivity].
Qed.

Lemma addOperators_unfold (newOperators : list (string * RawFunction cls)) OPERATORS :
  addOperators resolve cls newOperators OPERATORS
  = match snd (checkOperators cls newOperators OPERATORS) with
    | Ok _ => (useOperators cls (wrapOperators resolve cls newOperators) OPERATORS, Ok tt)
    | Throw e => (OPERATORS, Throw e)
    | OutOfFuel => (OPERATORS, OutOfFuel)
    end.
Proof.
  unfold addOperators, reg_bind, reg_useOperators.
  pose proof (checkOperators_reads newOperators OPERATORS) as Hreads.
  destruct (checkOperators cls newOperators OPERATORS) as [OPERATORS' [u|e|]];
    cbn [fst snd] in *; subst; reflexivity.
Qed.

End RegistrationFacts.

(** The claim C5 as the specification has it fails on a batch in which a
    name that does not match the pattern comes before the registered one:
    the failure is InvalidOperatorName. *)
Lemma addOperators_invalid_first_counterexample :
  is_Some (getOperator Samples.operators EXPRESSION (Some "$floor"))
  /\ snd (addOperators resolve_path EXPRESSION
            [("floor", Samples.within_child); ("$floor", dollar_floor)] Samples.operators)
     = Throw (InvalidOperatorName "floor")
  /\ (forall op cls,
        snd (addOperators resolve_path EXPRESSION
               [("floor", Samples.within_child); ("$floor", dollar_floor)] Samples.operators)
        <> Throw (DuplicateOperator op cls)).
Proof.
  split; [eexists; reflexivity|]. split; [reflexivity|]. intros op cls. discriminate.
Qed.

(** C5, amended.  A call of [addOperators] with a batch that holds a name
    already registered in the category fails and leaves the registry as it
    was: the first registration stays and no name of the batch is added,
    every name being checked before any is merged.  The failure is that of
    the first name of the batch, in its order, that fails a check:
    InvalidOperatorName when that name does not match the pattern,
    DuplicateOperator when it does and is registered; so it is
    DuplicateOperator when every name of the batch matches the pattern.
    Any failure of [addOperators] leaves the registry as it was. *)
Theorem addOperators_registered
    (resolve : value -> string -> option ResolveOptions -> value) (cls : OperatorType)
    (newOperators : list (string * RawFunction cls)) (OPERATORS : Registry) :
  let outcome := addOperators resolve cls newOperators OPERATORS in
  (forall name,
      In name (map fst newOperators) ->
      is_Some (getOperator OPERATORS cls (Some name)) ->
      exists e before op fn after,
        outcome = (OPERATORS, Throw e)
        /\ newOperators = before ++ (op, fn) :: after
        /\ Forall (fun entry => valid_operator_name (fst entry) = true
                                /\ getOperator OPERATORS cls (Some (fst entry)) = None)
                  before
        /\ rejected cls OPERATORS op e
        /\ (Forall (fun entry => valid_operator_name (fst entry) = true) newOperators ->
            e = DuplicateOperator op cls))
  /\ (forall e, snd outcome = Throw e -> fst outcome = OPERATORS).
Proof.
  intros outcome. subst outcome. rewrite addOperators_unfold.
  pose proof (checkOperators_first cls newOperators OPERATORS) as Hfirst.
  split.
  - intros name Hin Hregistered.
    destruct (snd (checkOperators cls newOperators OPERATORS)) as [u|e|].
    + exfalso. rewrite Forall_forall in Hfirst.
      apply in_map_iff in Hin as ([op fn] & <- & Hentry).
      apply list_elem_of_In in Hentry.
      destruct (Hfirst _ Hentry) as [_ Hnone]. cbn [fst] in *.
      rewrite Hnone in Hregistered. destruct Hregistered as [call Hcall]. discriminate Hcall.
    + destruct Hfirst as (before & op & fn & after & Hsplit & Hbefore & Hrejected).
      exists e, before, op, fn, after. repeat split; try assumption.
      intros Hvalid. destruct Hrejected as [[Hinvalid _]|(_ & _ & He)]; [|exact He].
      subst newOperators. rewrite Forall_app, Forall_cons in Hvalid.
      destruct Hvalid as (_ & Hop & _). cbn [fst] in Hop. congruence.
    + contradiction.
  - intros e. destruct (snd (checkOperators cls newOperators OPERATORS));
      cbn [fst snd]; [discriminate|reflexivity|reflexivity].
Qed.

Lemma addOperators_registered_witness :
  exists e,
    addOperators resolve_path EXPRESSION
      [("$ceil", dollar_floor); ("$floor", dollar_floor)] Samples.operators
    = (Samples.operators, Throw e)
    /\ exists op, e = DuplicateOperator op EXPRESSION.
Proof.
  pose proof (addOperators_registered resolve_path EXPRESSION
                [("$ceil", dollar_floor); ("$floor", dollar_floor)] Samples.operators)
    as (Hregistered & _).
  destruct (Hregistered "$floor") as (e & before & op & fn & after & Heq & _ & _ & _ & Hdup).
  - right. left. reflexivity.
  - eexists. reflexivity.
  - exists e. split; [exact Heq|]. exists op. apply Hdup. repeat constructor.
Defined.

Example addOperators_floor_twice :
  addOperators resolve_path EXPRESSION
    [("$ceil", dollar_floor); ("$floor", dollar_floor)] Samples.operators
  = (Samples.operators, Throw (DuplicateOperator "$floor" EXPRESSION)).
Proof. reflexivity. Qed.

Example addOperators_fresh :
  getOperator
    (fst (addOperators resolve_path EXPRESSION [("$ceil", dollar_floor)] Samples.operators))
    EXPRESSION (Some "$ceil")
  = Some dollar_floor.
Proof. reflexivity. Qed.

(** ** The single-operator rule *)

Lemma single_entry_split (before after : list (string * value)) entry :
  single_entry (VObj (before ++ entry :: after))
  = match before ++ after with [] => true | _ => false end.
Proof.
  unfold single_entry. rewrite length_app. cbn [length].
  destruct before as [|b before]; cbn [app length].
  - destruct after; reflexivity.
  - rewrite Nat.add_succ_r. reflexivity.
Qed.

(** A list with an element that satisfies [p] splits at the first one. *)
Lemma first_such {A : Type} (p : A -> bool) (l : list A) :
  existsb p l = true ->
  exists before x after,
    l = before ++ x :: after /\ Forall (fun y => p y = false) before /\ p x = true.
Proof.
  induction l as [|y l IH]; cbn [existsb]; [discriminate|].
  destruct (p y) eqn:Hy; cbn [orb].
  - intros _. exists [], y, l. repeat split; [constructor|exact Hy].
  - intros Hl. destruct (IH Hl) as (before & x & after & -> & Hbefore & Hx).
    exists (y :: before), x, after. repeat split; [|exact Hx].
    constructor; assumption.
Qed.

Section SingleOperator.

Variable resolve : value -> string -> option ResolveOptions -> value.
Variable OPERATORS : Registry.
Variable fuel : nat.

Let self : Capabilities := capabilities resolve OPERATORS fuel.

Lemma computeEntries_plain obj expr options before rest :
  Forall (fun entry => is_operator_key OPERATORS (fst entry) = false) before ->
  Forall (plain_entry resolve OPERATORS fuel obj (Some options)) before ->
  forall res, exists res',
    computeEntries OPERATORS self obj expr options (before ++ rest) res
    = computeEntries OPERATORS self obj expr options rest res'.
Proof.
  induction before as [|[key val] before IH]; intros Hkeys Hplain res.
  - exists res. reflexivity.
  - inversion Hkeys as [|? ? Hkey Hkeys']; subst.
    inversion Hplain as [|? ? [v Hv] Hplain']; subst. cbn [fst snd] in *.
    cbn [app computeEntries].
    change (cap_computeValue self) with (computeValue resolve OPERATORS fuel).
    rewrite Hv, Hkey. cbn [bind]. apply IH; assumption.
Qed.

Lemma computeEntries_not_single obj expr options before key val after :
  Forall (fun entry => is_operator_key OPERATORS (fst entry) = false) before ->
  is_operator_key OPERATORS key = true ->
  single_entry expr = false ->
  forall res v,
    computeEntries OPERATORS self obj expr options (before ++ (key, val) :: after) res
    <> Ok v.
Proof.
  intros Hkeys Hkey Hsingle.
  induction before as [|[key' val'] before IH]; intros res v; cbn [app computeEntries].
  - destruct (cap_computeValue self obj val (Some key) (Some options)); cbn [bind];
      try discriminate.
    rewrite Hkey, Hsingle. discriminate.
  - inversion Hkeys as [|? ? Hkey' Hkeys']; subst. cbn [fst] in *.
    destruct (cap_computeValue self obj val' (Some key') (Some options)); cbn [bind];
      try discriminate.
    rewrite Hkey'. apply IH. assumption.
Qed.

Lemma accumulateEntries_plain collection expr options before rest :
  Forall (fun entry => getOperator OPERATORS ACCUMULATOR (Some (fst entry)) = None) before ->
  Forall (plain_group_entry resolve OPERATORS fuel collection options) before ->
  forall res, exists res',
    accumulateEntries OPERATORS self collection expr options (before ++ rest) res
    = accumulateEntries OPERATORS self collection expr options rest res'.
Proof.
  induction before as [|[key val] before IH]; intros Hkeys Hplain res.
  - exists res. reflexivity.
  - inversion Hkeys as [|? ? Hkey Hkeys']; subst.
    inversion Hplain as [|? ? [v Hv] Hplain']; subst. cbn [fst snd] in *.
    cbn [app accumulateEntries].
    change (cap_accumulate self) with (accumulate resolve OPERATORS fuel).
    rewrite Hv, Hkey. cbn [bind]. apply IH; assumption.
Qed.

Lemma accumulateEntries_not_single collection expr options before key val after call :
  Forall (fun entry => getOperator OPERATORS ACCUMULATOR (Some (fst entry)) = None) before ->
  getOperator OPERATORS ACCUMULATOR (Some key) = Some call ->
  single_entry expr = false ->
  forall res v,
    accumulateEntries OPERATORS self collection expr options (before ++ (key, val) :: after) res
    <> Ok v.
Proof.
  intros Hkeys Hkey Hsingle.
  induction before as [|[key' val'] before IH]; intros res v; cbn [app accumulateEntries].
  - destruct (cap_accumulate self collection key val options); cbn [bind];
      try discriminate.
    rewrite Hkey, Hsingle. discriminate.
  - inversion Hkeys as [|? ? Hkey' Hkeys']; subst. cbn [fst] in *.
    destruct (cap_accumulate self collection key' val' options); cbn [bind];
      try discriminate.
    rewrite Hkey'. apply IH. assumption.
Qed.

End SingleOperator.

(** The claim C2 as the specification has it fails on a mapping whose
    operator entry fails before the count of the entries is checked:
    [{$sum: 5, x: 1}] has two entries and the accumulator key [$sum], and
    the call fails with the TypeError of the accumulator branch. *)
Lemma computeValue_operator_entry_counterexample :
  is_operator_key Samples.operators "$sum" = true
  /\ computeValue resolve_path Samples.operators 3 Samples.doc_ab
       (VObj [("$sum", int 5); ("x", int 1)]) None Samples.no_options
     = Throw (TypeError "$sum expression must resolve to an array")
  /\ (forall expr,
        computeValue resolve_path Samples.operators 3 Samples.doc_ab
          (VObj [("$sum", int 5); ("x", int 1)]) None Samples.no_options
        <> Throw (InvalidExpression expr)).
Proof. split; [reflexivity|]. split; [reflexivity|]. intros expr. discriminate. Qed.

(** C2, amended.  Let a mapping be evaluated with no operator, and let
    [key] be its first key registered as an expression operator or an
    accumulator.  If the mapping has this one entry, the result is
    [computeValue(document, value, key, options)] and no mapping is built.
    If it has more entries the call returns no value: the entries are
    evaluated in order up to and including the one of [key], a failure
    among these evaluations is the failure of the call, and when they all
    return the call fails with InvalidExpression. *)
Theorem computeValue_operator_entry
    (resolve : value -> string -> option ResolveOptions -> value) (OPERATORS : Registry)
    (fuel : nat) (obj : value) (options : option ComputeOptions)
    (before : list (string * value)) (key : string) (val : value)
    (after : list (string * value))
    (Hbefore : Forall (fun entry => is_operator_key OPERATORS (fst entry) = false) before)
    (Hkey : is_operator_key OPERATORS key = true) :
  let expr := VObj (before ++ (key, val) :: after) in
  let single := computeValue resolve OPERATORS fuel obj val (Some key) options in
  let outcome := computeValue resolve OPERATORS (S fuel) obj expr None options in
  (before = [] -> after = [] -> outcome = single)
  /\ (before ++ after <> [] -> forall v, outcome <> Ok v)
  /\ (before ++ after <> [] ->
      Forall (plain_entry resolve OPERATORS fuel obj options) before ->
      forall v, single = Ok v -> outcome = Throw (InvalidExpression expr))
  /\ (Forall (plain_entry resolve OPERATORS fuel obj options) before ->
      forall e, single = Throw e -> outcome = Throw e)
  /\ (forall earlier failing later e,
        before = earlier ++ failing :: later ->
        Forall (plain_entry resolve OPERATORS fuel obj options) earlier ->
        computeValue resolve OPERATORS fuel obj (snd failing) (Some (fst failing)) options
        = Throw e ->
        outcome = Throw e).
Proof.
  intros expr single outcome.
  assert (Hout : outcome =
            computeEntries OPERATORS (capabilities resolve OPERATORS fuel) obj expr
              (ensure_config options) (before ++ (key, val) :: after) []).
  { reflexivity. }
  assert (Hsingle : cap_computeValue (capabilities resolve OPERATORS fuel) obj val (Some key)
                      (Some (ensure_config options)) = single).
  { apply computeValue_ensure_config. }
  assert (Hplain : Forall (plain_entry resolve OPERATORS fuel obj options) before ->
                   Forall (plain_entry resolve OPERATORS fuel obj
                             (Some (ensure_config options))) before).
  { intros Hevaluates. eapply Forall_impl; [exact Hevaluates|].
    intros entry [v Hv]. exists v. rewrite computeValue_ensure_config. exact Hv. }
  assert (Hcount : single_entry expr = match before ++ after with [] => true | _ => false end).
  { apply single_entry_split. }
  rewrite Hout. repeat split.
  - intros -> ->. cbn [app computeEntries]. rewrite Hsingle, Hkey.
    destruct single; reflexivity.
  - intros Hmore v. apply computeEntries_not_single; try assumption.
    rewrite Hcount. destruct (before ++ after); [contradiction|reflexivity].
  - intros Hmore Hevaluates v Hv.
    destruct (computeEntries_plain resolve OPERATORS fuel obj expr (ensure_config options)
                before ((key, val) :: after) Hbefore (Hplain Hevaluates) []) as [res' ->].
    cbn [computeEntries]. rewrite Hsingle, Hv, Hkey. cbn [bind].
    rewrite Hcount. destruct (before ++ after); [contradiction|reflexivity].
  - intros Hevaluates e He.
    destruct (computeEntries_plain resolve OPERATORS fuel obj expr (ensure_config options)
                before ((key, val) :: after) Hbefore (Hplain Hevaluates) []) as [res' ->].
    cbn [computeEntries]. rewrite Hsingle, He. reflexivity.
  - intros earlier [key' val'] later e -> Hevaluates He. cbn [fst snd] in He.
    apply Forall_app in Hbefore as [Hearlier _].
    assert (Hearlier' : Forall (plain_entry resolve OPERATORS fuel obj
                                  (Some (ensure_config options))) earlier).
    { eapply Forall_impl; [exact Hevaluates|].
      intros entry [v Hv]. exists v. rewrite computeValue_ensure_config. exact Hv. }
    rewrite <- app_assoc.
    destruct (computeEntries_plain resolve OPERATORS fuel obj expr (ensure_config options)
                earlier (((key', val') :: later) ++ (key, val) :: after)
                Hearlier Hearlier' []) as [res' ->].
    cbn [app computeEntries].
    change (cap_computeValue (capabilities resolve OPERATORS fuel))
      with (computeValue resolve OPERATORS fuel).
    rewrite computeValue_ensure_config, He. reflexivity.
Qed.

Lemma computeValue_operator_entry_witness :
  computeValue resolve_path Samples.operators 4 (VObj [("a", VNum (Finite (7 # 2)))])
    (VObj [("$floor", VStr "$a")]) None Samples.no_options
  = computeValue resolve_path Samples.operators 3 (VObj [("a", VNum (Finite (7 # 2)))])
      (VStr "$a") (Some "$floor") Samples.no_options
  /\ computeValue resolve_path Samples.operators 4 (VObj [("a", VNum (Finite (7 # 2)))])
       (VObj [("x", VObj [("$sum", int 5)]); ("$floor", VStr "$a")]) None Samples.no_options
     = Throw (TypeError "$sum expression must resolve to an array")
  /\ computeValue resolve_path Samples.operators 4 (VObj [("a", VNum (Finite (7 # 2)))])
       (VObj [("x", int 1); ("$floor", VStr "$a"); ("y", int 2)]) None Samples.no_options
     = Throw (InvalidExpression
                (VObj [("x", int 1); ("$floor", VStr "$a"); ("y", int 2)])).
Proof.
  split; [|split].
  - apply (computeValue_operator_entry resolve_path Samples.operators 3
             (VObj [("a", VNum (Finite (7 # 2)))]) Samples.no_options
             [] "$floor" (VStr "$a") [] ltac:(constructor) eq_refl); reflexivity.
  - pose proof (computeValue_operator_entry resolve_path Samples.operators 3
                  (VObj [("a", VNum (Finite (7 # 2)))]) Samples.no_options
                  [("x", VObj [("$sum", int 5)])] "$floor" (VStr "$a") []
                  ltac:(repeat constructor) eq_refl) as (_ & _ & _ & _ & Hearlier).
    apply (Hearlier [] ("x", VObj [("$sum", int 5)]) []); [reflexivity|constructor|reflexivity].
  - apply (computeValue_operator_entry resolve_path Samples.operators 3
             (VObj [("a", VNum (Finite (7 # 2)))]) Samples.no_options
             [("x", int 1)] "$floor" (VStr "$a") [("y", int 2)]
             ltac:(repeat constructor) eq_refl)
      with (v := int 3).
    + discriminate.
    + constructor; [|constructor]. exists (int 1). reflexivity.
    + reflexivity.
Defined.

(** The claim C6 as the specification has it fails on a group mapping
    whose accumulator fails before the count of the entries is checked:
    [$scale] rejects its argument, and that failure is the failure of the
    call. *)
Lemma accumulate_operator_entry_counterexample :
  getOperator Samples.operators ACCUMULATOR (Some "$group") = None
  /\ is_Some (getOperator Samples.operators ACCUMULATOR (Some "$scale"))
  /\ accumulate resolve_path Samples.operators 2 (VArr [VObj [("a", int 1)]]) "$group"
       (VObj [("$scale", VStr "x"); ("$sum", VStr "$a")]) Samples.no_options
     = Throw (TypeError "$scale expects a number")
  /\ (forall expr,
        accumulate resolve_path Samples.operators 2 (VArr [VObj [("a", int 1)]]) "$group"
          (VObj [("$scale", VStr "x"); ("$sum", VStr "$a")]) Samples.no_options
        <> Throw (InvalidGroupExpression expr)).
Proof.
  split; [reflexivity|]. split; [eexists; reflexivity|]. split; [reflexivity|].
  intros expr. discriminate.
Qed.

(** C6, amended.  Let [field] be no registered accumulator, [expr] a
    mapping and [key] its first key that names a registered accumulator.
    If the mapping has this one entry, the result is that single
    accumulated value.  If it has more entries the call returns no value:
    the entries are accumulated in order up to and including the one of
    [key], a failure among these accumulations is the failure of the call,
    and when they all return the call fails with InvalidGroupExpression.
    So [accumulate(collection, '$group', {$sum: '$a', $avg: '$a'}, opts)]
    fails, with InvalidGroupExpression when [$sum] returns. *)
Theorem accumulate_operator_entry
    (resolve : value -> string -> option ResolveOptions -> value) (OPERATORS : Registry)
    (fuel : nat) (collection : value) (field : string) (options : option ComputeOptions)
    (before : list (string * value)) (key : string) (val : value)
    (after : list (string * value))
    (Hfield : getOperator OPERATORS ACCUMULATOR (Some field) = None)
    (Hbefore : Forall (fun entry => getOperator OPERATORS ACCUMULATOR (Some (fst entry)) = None)
                      before)
    (Hkey : is_Some (getOperator OPERATORS ACCUMULATOR (Some key))) :
  let expr := VObj (before ++ (key, val) :: after) in
  let single := accumulate resolve OPERATORS fuel collection key val options in
  let outcome := accumulate resolve OPERATORS (S fuel) collection field expr options in
  (before = [] -> after = [] -> outcome = single)
  /\ (before ++ after <> [] -> forall v, outcome <> Ok v)
  /\ (before ++ after <> [] ->
      Forall (plain_group_entry resolve OPERATORS fuel collection options) before ->
      forall v, single = Ok v -> outcome = Throw (InvalidGroupExpression expr))
  /\ (Forall (plain_group_entry resolve OPERATORS fuel collection options) before ->
      forall e, single = Throw e -> outcome = Throw e)
  /\ (forall earlier failing later e,
        before = earlier ++ failing :: later ->
        Forall (plain_group_entry resolve OPERATORS fuel collection options) earlier ->
        accumulate resolve OPERATORS fuel collection (fst failing) (snd failing) options
        = Throw e ->
        outcome = Throw e).
Proof.
  intros expr single outcome. destruct Hkey as [call Hcall].
  assert (Hout : outcome =
            accumulateEntries OPERATORS (capabilities resolve OPERATORS fuel) collection expr
              options (before ++ (key, val) :: after) []).
  { subst outcome. rewrite accumulate_unfold. unfold accumulate_body.
    rewrite Hfield. reflexivity. }
  assert (Hsingle : cap_accumulate (capabilities resolve OPERATORS fuel) collection key val
                      options = single).
  { reflexivity. }
  assert (Hcount : single_entry expr = match before ++ after with [] => true | _ => false end).
  { apply single_entry_split. }
  rewrite Hout. repeat split.
  - intros -> ->. cbn [app accumulateEntries]. rewrite Hsingle, Hcall.
    destruct single; reflexivity.
  - intros Hmore v. apply accumulateEntries_not_single with (call := call); try assumption.
    rewrite Hcount. destruct (before ++ after); [contradiction|reflexivity].
  - intros Hmore Hevaluates v Hv.
    destruct (accumulateEntries_plain resolve OPERATORS fuel collection expr options
                before ((key, val) :: after) Hbefore Hevaluates []) as [res' ->].
    cbn [accumulateEntries]. rewrite Hsingle, Hv, Hcall. cbn [bind].
    rewrite Hcount. destruct (before ++ after); [contradiction|reflexivity].
  - intros Hevaluates e He.
    destruct (accumulateEntries_plain resolve OPERATORS fuel collection expr options
                before ((key, val) :: after) Hbefore Hevaluates []) as [res' ->].
    cbn [accumulateEntries]. rewrite Hsingle, He. reflexivity.
  - intros earlier [key' val'] later e -> Hevaluates He. cbn [fst snd] in He.
    apply Forall_app in Hbefore as [Hearlier _].
    rewrite <- app_assoc.
    destruct (accumulateEntries_plain resolve OPERATORS fuel collection expr options
                earlier (((key', val') :: later) ++ (key, val) :: after)
                Hearlier Hevaluates []) as [res' ->].
    cbn [app accumulateEntries].
    change (cap_accumulate (capabilities resolve OPERATORS fuel))
      with (accumulate resolve OPERATORS fuel).
    rewrite He. reflexivity.
Qed.

Lemma accumulate_operator_entry_witness :
  accumulate resolve_path Samples.operators 4
    (VArr [VObj [("a", int 1)]; VObj [("a", int 2)]; VObj [("a", int 3)]]) "$group"
    (VObj [("$sum", VStr "$a"); ("$avg", VStr "$a")]) Samples.no_options
  = Throw (InvalidGroupExpression (VObj [("$sum", VStr "$a"); ("$avg", VStr "$a")]))
  /\ accumulate resolve_path Samples.operators 4
       (VArr [VObj [("a", int 1)]; VObj [("a", int 2)]; VObj [("a", int 3)]]) "$group"
       (VObj [("$sum", VStr "$a")]) Samples.no_options
     = accumulate resolve_path Samples.operators 3
         (VArr [VObj [("a", int 1)]; VObj [("a", int 2)]; VObj [("a", int 3)]]) "$sum"
         (VStr "$a") Samples.no_options
  /\ accumulate resolve_path Samples.operators 4
       (VArr [VObj [("a", int 1)]; VObj [("a", int 2)]; VObj [("a", int 3)]]) "$group"
       (VObj [("x", VObj [("$scale", VStr "s")]); ("$sum", VStr "$a")]) Samples.no_options
     = Throw (TypeError "$scale expects a number").
Proof.
  split; [|split].
  - apply (accumulate_operator_entry resolve_path Samples.operators 3
             (VArr [VObj [("a", int 1)]; VObj [("a", int 2)]; VObj [("a", int 3)]])
             "$group" Samples.no_options [] "$sum" (VStr "$a") [("$avg", VStr "$a")]
             eq_refl ltac:(constructor) ltac:(eexists; reflexivity))
      with (v := int 6).
    + discriminate.
    + constructor.
    + reflexivity.
  - apply (accumulate_operator_entry resolve_path Samples.operators 3
             (VArr [VObj [("a", int 1)]; VObj [("a", int 2)]; VObj [("a", int 3)]])
             "$group" Samples.no_options [] "$sum" (VStr "$a") []
             eq_refl ltac:(constructor) ltac:(eexists; reflexivity)); reflexivity.
  - pose proof (accumulate_operator_entry resolve_path Samples.operators 3
                  (VArr [VObj [("a", int 1)]; VObj [("a", int 2)]; VObj [("a", int 3)]])
                  "$group" Samples.no_options [("x", VObj [("$scale", VStr "s")])]
                  "$sum" (VStr "$a") []
                  eq_refl ltac:(repeat constructor) ltac:(eexists; reflexivity))
      as (_ & _ & _ & _ & Hearlier).
    apply (Hearlier [] ("x", VObj [("$scale", VStr "s")]) []);
      [reflexivity|constructor|reflexivity].
Defined.

(** * Further properties of the core *)

(** ** The registry *)

Lemma table_set_table OPERATORS cls (t : gmap string (Function cls)) :
  table (set_table OPERATORS cls t) cls = t.
Proof. destruct cls; reflexivity. Qed.

Lemma table_set_table_other OPERATORS cls cls' (t : gmap string (Function cls)) :
  cls' <> cls -> table (set_table OPERATORS cls t) cls' = table OPERATORS cls'.
Proof. destruct cls, cls'; intros H; try reflexivity; contradiction. Qed.

Lemma getOperator_useOperators OPERATORS cls (operators : gmap string (Function cls)) name :
  getOperator (useOperators cls operators OPERATORS) cls (Some name)
  = match (if String.eqb name proto_key then None else operators !! name) with
    | Some fn => Some fn
    | None => getOperator OPERATORS cls (Some name)
    end.
Proof.
  rewrite !getOperator_lookup. unfold useOperators. rewrite table_set_table.
  rewrite lookup_union. rewrite lookup_delete.
  destruct (String.eqb name proto_key) eqn:Hname.
  - apply String.eqb_eq in Hname. rewrite decide_True by congruence.
    destruct (table OPERATORS cls !! name); reflexivity.
  - apply String.eqb_neq in Hname. rewrite decide_False by congruence.
    destruct (operators !! name), (table OPERATORS cls !! name); reflexivity.
Qed.

Lemma valid_operator_name_proto name :
  valid_operator_name name = true -> String.eqb name proto_key = false.
Proof.
  intros Hvalid. apply String.eqb_neq. intros ->. discriminate Hvalid.
Qed.

Lemma getOperator_useOperators_other OPERATORS cls cls'
    (operators : gmap string (Function cls)) operator :
  cls' <> cls ->
  getOperator (useOperators cls operators OPERATORS) cls' operator
  = getOperator OPERATORS cls' operator.
Proof.
  intros Hcls. destruct operator as [name|]; [|reflexivity].
  rewrite !getOperator_lookup. unfold useOperators.
  rewrite table_set_table_other by exact Hcls. reflexivity.
Qed.

(** X1. [useOperators] merges by name: a name of the new operators other
    than [__proto__] resolves to the new function, also when it was
    registered before; [__proto__] resolves as before, whatever the new
    operators hold for it; every other name of the category, and every
    other category, resolves as before. *)
Theorem useOperators_lookup
    (OPERATORS : Registry) (cls : OperatorType) (operators : gmap string (Function cls)) :
  (forall name fn, name <> "__proto__" -> operators !! name = Some fn ->
     getOperator (useOperators cls operators OPERATORS) cls (Some name) = Some fn)
  /\ getOperator (useOperators cls operators OPERATORS) cls (Some "__proto__")
     = getOperator OPERATORS cls (Some "__proto__")
  /\ (forall name, operators !! name = None ->
        getOperator (useOperators cls operators OPERATORS) cls (Some name)
        = getOperator OPERATORS cls (Some name))
  /\ (forall cls' operator, cls' <> cls ->
        getOperator (useOperators cls operators OPERATORS) cls' operator
        = getOperator OPERATORS cls' operator).
Proof.
  repeat split.
  - intros name fn Hname H. rewrite getOperator_useOperators.
    apply String.eqb_neq in Hname. unfold proto_key. rewrite Hname, H. reflexivity.
  - rewrite getOperator_useOperators. reflexivity.
  - intros name H. rewrite getOperator_useOperators, H.
    destruct (String.eqb name proto_key); reflexivity.
  - intros cls' operator H. apply getOperator_useOperators_other. exact H.
Qed.

Lemma useOperators_lookup_witness :
  getOperator (useOperators EXPRESSION {["$floor" := Samples.within_child]} Samples.operators)
    EXPRESSION (Some "$floor") = Some Samples.within_child
  /\ getOperator (useOperators EXPRESSION {["$floor" := Samples.within_child]} Samples.operators)
       ACCUMULATOR (Some "$sum") = Some Samples.sum.
Proof.
  pose proof (useOperators_lookup Samples.operators EXPRESSION
                {["$floor" := Samples.within_child]}) as (Hnew & _ & _ & Hother).
  split.
  - apply Hnew; [discriminate|reflexivity].
  - rewrite (Hother ACCUMULATOR (Some "$sum")) by discriminate. reflexivity.
Defined.

Example useOperators_proto :
  getOperator (useOperators EXPRESSION {["__proto__" := Samples.within_child]}
                 Samples.operators) EXPRESSION (Some "__proto__") = None.
Proof. reflexivity. Qed.

Section RegistrationSuccess.

Variable resolve : value -> string -> option ResolveOptions -> value.
Variable cls : OperatorType.

Lemma wrapOperators_from (newOperators : list (string * RawFunction cls))
    (wrapped : gmap string (Function cls)) name :
  ~ In name (map fst newOperators) ->
  fold_left (fun wrapped entry => set_property (fst entry) (wrap resolve cls (snd entry)) wrapped)
    newOperators wrapped !! name
  = wrapped !! name.
Proof.
  revert wrapped. induction newOperators as [|[op fn] rest IH]; intros wrapped Hin.
  - reflexivity.
  - cbn [fold_left fst snd]. rewrite IH.
    + unfold set_property. destruct (String.eqb op proto_key); [reflexivity|].
      apply lookup_insert_ne. intros ->. apply Hin. left. reflexivity.
    + intros H. apply Hin. right. exact H.
Qed.

Lemma wrapOperators_absent (newOperators : list (string * RawFunction cls)) name :
  ~ In name (map fst newOperators) ->
  wrapOperators resolve cls newOperators !! name = None.
Proof.
  intros H. unfold wrapOperators. rewrite wrapOperators_from by exact H.
  apply lookup_empty.
Qed.

Lemma wrapOperators_present (newOperators : list (string * RawFunction cls)) op fn :
  NoDup (map fst newOperators) ->
  In (op, fn) newOperators ->
  String.eqb op proto_key = false ->
  wrapOperators resolve cls newOperators !! op = Some (wrap resolve cls fn).
Proof.
  unfold wrapOperators. generalize (∅ : gmap string (Function cls)).
  induction newOperators as [|[op' fn'] rest IH]; intros wrapped Hdistinct Hin Hop.
  - destruct Hin.
  - cbn [map fst] in Hdistinct. apply NoDup_cons in Hdistinct as [Hfresh Hdistinct].
    cbn [fold_left fst snd]. destruct Hin as [Heq|Hin].
    + injection Heq as -> ->. rewrite wrapOperators_from.
      * unfold set_property. rewrite Hop. apply lookup_insert_eq.
      * intros H. apply Hfresh. apply list_elem_of_In. exact H.
    + apply IH; assumption.
Qed.

Lemma acceptable_proto (newOperators : list (string * RawFunction cls)) OPERATORS op fn :
  acceptable cls OPERATORS newOperators -> In (op, fn) newOperators ->
  String.eqb op proto_key = false.
Proof.
  intros Hok Hin. unfold acceptable in Hok. rewrite Forall_forall in Hok.
  apply list_elem_of_In in Hin. destruct (Hok _ Hin) as [Hvalid _].
  apply valid_operator_name_proto. exact Hvalid.
Qed.

Lemma checkOperators_acceptable (newOperators : list (string * RawFunction cls)) OPERATORS :
  acceptable cls OPERATORS newOperators ->
  snd (checkOperators cls newOperators OPERATORS) = Ok tt.
Proof.
  intros Hok. pose proof (checkOperators_first cls newOperators OPERATORS) as Hfirst.
  destruct (snd (checkOperators cls newOperators OPERATORS)) as [[]|e|].
  - reflexivity.
  - exfalso. destruct Hfirst as (before & op & fn & after & -> & _ & Hrejected).
    unfold acceptable in Hok. rewrite Forall_app, Forall_cons in Hok.
    destruct Hok as (_ & [Hvalid Hfree] & _). cbn [fst] in *.
    destruct Hrejected as [[Hinvalid _]|(_ & [call Hcall] & _)]; congruence.
  - contradiction.
Qed.

Lemma addOperators_acceptable (newOperators : list (string * RawFunction cls)) OPERATORS :
  acceptable cls OPERATORS newOperators ->
  addOperators resolve cls newOperators OPERATORS
  = (useOperators cls (wrapOperators resolve cls newOperators) OPERATORS, Ok tt).
Proof.
  intros Hok. rewrite addOperators_unfold, (checkOperators_acceptable _ _ Hok).
  reflexivity.
Qed.

Lemma addOperators_succeeds_acceptable (newOperators : list (string * RawFunction cls))
    OPERATORS :
  snd (addOperators resolve cls newOperators OPERATORS) = Ok tt ->
  acceptable cls OPERATORS newOperators.
Proof.
  rewrite addOperators_unfold.
  pose proof (checkOperators_first cls newOperators OPERATORS) as Hfirst.
  destruct (snd (checkOperators cls newOperators OPERATORS)); cbn [snd];
    [intros _; exact Hfirst|discriminate|discriminate].
Qed.

End RegistrationSuccess.

(** X2. A batch in which every name matches the pattern and none is
    registered in the category is accepted by [addOperators]; with distinct
    names, every name of the batch then resolves to the wrapper of its
    function, and every name outside the batch resolves as before. *)
Theorem addOperators_fresh_batch
    (resolve : value -> string -> option ResolveOptions -> value) (cls : OperatorType)
    (newOperators : list (string * RawFunction cls)) (OPERATORS : Registry)
    (Hacceptable : acceptable cls OPERATORS newOperators)
    (Hdistinct : NoDup (map fst newOperators)) :
  let outcome := addOperators resolve cls newOperators OPERATORS in
  snd outcome = Ok tt
  /\ (forall op fn, In (op, fn) newOperators ->
        getOperator (fst outcome) cls (Some op) = Some (wrap resolve cls fn))
  /\ (forall name, ~ In name (map fst newOperators) ->
        getOperator (fst outcome) cls (Some name) = getOperator OPERATORS cls (Some name)).
Proof.
  intros outcome. subst outcome. rewrite (addOperators_acceptable _ _ _ _ Hacceptable).
  cbn [fst snd]. repeat split.
  - intros op fn Hin. rewrite getOperator_useOperators.
    pose proof (acceptable_proto cls newOperators OPERATORS op fn Hacceptable Hin) as Hop.
    rewrite Hop.
    rewrite (wrapOperators_present resolve cls newOperators op fn Hdistinct Hin Hop).
    reflexivity.
  - intros name Hout. rewrite getOperator_useOperators.
    rewrite (wrapOperators_absent resolve cls newOperators name Hout).
    destruct (String.eqb name proto_key); reflexivity.
Qed.

Lemma addOperators_fresh_batch_witness :
  getOperator
    (fst (addOperators resolve_path EXPRESSION
            [("$ceil", dollar_floor); ("$inner", Samples.within_child)] Samples.operators))
    EXPRESSION (Some "$inner") = Some Samples.within_child.
Proof.
  apply (addOperators_fresh_batch resolve_path EXPRESSION
           [("$ceil", dollar_floor); ("$inner", Samples.within_child)] Samples.operators).
  - repeat constructor.
  - refine (bool_decide_unpack _ _). vm_compute. exact I.
  - right. left. reflexivity.
Defined.

(** X3. [addOperators] never removes or replaces a registration: an
    operator that resolves before the call resolves to the same function
    after it, whatever the batch and whether the call succeeds or fails. *)
Theorem addOperators_keeps_registered
    (resolve : value -> string -> option ResolveOptions -> value) (cls : OperatorType)
    (newOperators : list (string * RawFunction cls)) (OPERATORS : Registry)
    (cls' : OperatorType) (name : string) (fn : Function cls')
    (Hregistered : getOperator OPERATORS cls' (Some name) = Some fn) :
  getOperator (fst (addOperators resolve cls newOperators OPERATORS)) cls' (Some name)
  = Some fn.
Proof.
  rewrite addOperators_unfold.
  pose proof (checkOperators_first cls newOperators OPERATORS) as Hfirst.
  destruct (snd (checkOperators cls newOperators OPERATORS)) as [u|e|]; cbn [fst];
    try exact Hregistered.
  destruct (decide (cls' = cls)) as [->|Hcls].
  - rewrite getOperator_useOperators, wrapOperators_absent;
      [destruct (String.eqb name proto_key); exact Hregistered|].
    intros Hin. apply in_map_iff in Hin as ([op fn'] & <- & Hentry).
    rewrite Forall_forall in Hfirst. apply list_elem_of_In in Hentry.
    destruct (Hfirst _ Hentry) as [_ Hnone]. cbn [fst] in *. congruence.
  - rewrite getOperator_useOperators_other by exact Hcls. exact Hregistered.
Qed.

Lemma addOperators_keeps_registered_witness :
  getOperator
    (fst (addOperators resolve_path ACCUMULATOR [("$max", Samples.sum)] Samples.operators))
    ACCUMULATOR (Some "$sum") = Some Samples.sum.
Proof.
  apply (addOperators_keeps_registered resolve_path ACCUMULATOR [("$max", Samples.sum)]
           Samples.operators ACCUMULATOR "$sum" Samples.sum).
  reflexivity.
Defined.

(** X4. What a registered operator is, by category.  A query operator
    registered by [addOperators] takes [(selector, value, options)] and then
    the document, and calls the raw function on the selector, the field
    resolved with array unwrapping, the value and the options; a projection
    operator takes [(obj, expr, selector, options)] and calls the raw
    function on the selector, the field resolved without unwrapping, the
    expression and the options; an expression operator, an accumulator and
    a pipeline operator are the raw function. *)
Theorem addOperators_wrappers
    (resolve : value -> string -> option ResolveOptions -> value) (OPERATORS : Registry) :
  (forall (newOperators : list (string * RawFunction QUERY)) op fn,
      acceptable QUERY OPERATORS newOperators -> NoDup (map fst newOperators) ->
      In (op, fn) newOperators ->
      exists call : QueryOperator,
        getOperator (fst (addOperators resolve QUERY newOperators OPERATORS)) QUERY (Some op)
        = Some call
        /\ forall self selector value options obj,
             call self selector value options obj
             = fn self selector (resolve obj selector (Some {| unwrapArray := true |}))
                  value options)
  /\ (forall (newOperators : list (string * RawFunction PROJECTION)) op fn,
        acceptable PROJECTION OPERATORS newOperators -> NoDup (map fst newOperators) ->
        In (op, fn) newOperators ->
        exists call : ProjectionOperator,
          getOperator (fst (addOperators resolve PROJECTION newOperators OPERATORS))
            PROJECTION (Some op) = Some call
          /\ forall self obj expr selector options,
               call self obj expr selector options
               = fn self selector (resolve obj selector None) expr options)
  /\ (forall (newOperators : list (string * RawFunction EXPRESSION)) op fn,
        acceptable EXPRESSION OPERATORS newOperators -> NoDup (map fst newOperators) ->
        In (op, fn) newOperators ->
        getOperator (fst (addOperators resolve EXPRESSION newOperators OPERATORS))
          EXPRESSION (Some op) = Some fn)
  /\ (forall (newOperators : list (string * RawFunction ACCUMULATOR)) op fn,
        acceptable ACCUMULATOR OPERATORS newOperators -> NoDup (map fst newOperators) ->
        In (op, fn) newOperators ->
        getOperator (fst (addOperators resolve ACCUMULATOR newOperators OPERATORS))
          ACCUMULATOR (Some op) = Some fn)
  /\ (forall (newOperators : list (string * RawFunction PIPELINE)) op fn,
        acceptable PIPELINE OPERATORS newOperators -> NoDup (map fst newOperators) ->
        In (op, fn) newOperators ->
        getOperator (fst (addOperators resolve PIPELINE newOperators OPERATORS))
          PIPELINE (Some op) = Some fn).
Proof.
  assert (Hlookup : forall cls (newOperators : list (string * RawFunction cls)) op fn,
             acceptable cls OPERATORS newOperators -> NoDup (map fst newOperators) ->
             In (op, fn) newOperators ->
             getOperator (fst (addOperators resolve cls newOperators OPERATORS)) cls (Some op)
             = Some (wrap resolve cls fn)).
  { intros cls newOperators op fn Hok Hdistinct Hin.
    rewrite (addOperators_acceptable _ _ _ _ Hok). cbn [fst].
    rewrite getOperator_useOperators.
    pose proof (acceptable_proto cls newOperators OPERATORS op fn Hok Hin) as Hop.
    rewrite Hop.
    rewrite (wrapOperators_present resolve cls newOperators op fn Hdistinct Hin Hop).
    reflexivity. }
  repeat split.
  - intros newOperators op fn Hok Hdistinct Hin.
    exists (wrap resolve QUERY fn). split; [|reflexivity]. apply Hlookup; assumption.
  - intros newOperators op fn Hok Hdistinct Hin.
    exists (wrap resolve PROJECTION fn). split; [|reflexivity]. apply Hlookup; assumption.
  - intros newOperators op fn Hok Hdistinct Hin.
    apply (Hlookup EXPRESSION); assumption.
  - intros newOperators op fn Hok Hdistinct Hin.
    apply (Hlookup ACCUMULATOR); assumption.
  - intros newOperators op fn Hok Hdistinct Hin.
    apply (Hlookup PIPELINE); assumption.
Qed.

Lemma addOperators_wrappers_witness :
  exists call : QueryOperator,
    getOperator (fst (addOperators resolve_path QUERY [("$exists", Samples.field_exists)]
                        Samples.operators)) QUERY (Some "$exists") = Some call
    /\ call (capabilities resolve_path Samples.operators 0) "a.b" (VBool true) None
         Samples.doc_ab = Ok (VBool true).
Proof.
  destruct (proj1 (addOperators_wrappers resolve_path Samples.operators)
              [("$exists", Samples.field_exists)] "$exists" Samples.field_exists) as (call & Hcall & Hwrap).
  - repeat constructor.
  - refine (bool_decide_unpack _ _). vm_compute. exact I.
  - left. reflexivity.
  - exists call. split; [exact Hcall|]. rewrite Hwrap. reflexivity.
Defined.

(** ** Operator names *)

Lemma word_char_not_dot c : word_char c = true -> Ascii.eqb c "." = false.
Proof.
  destruct c as [[] [] [] [] [] [] [] []]; try reflexivity; discriminate.
Qed.

(** X5. A name that [addOperators] accepts begins with [$], holds no dot,
    and is the name of no system variable and of no redact variable: no
    registration can take the place of [$$ROOT], [$$CURRENT], [$$REMOVE],
    [$$KEEP], [$$PRUNE] or [$$DESCEND], nor look like a dotted field path. *)
Theorem valid_operator_name_plain (name : string)
    (Hvalid : valid_operator_name name = true) :
  (exists rest, name = String "$" rest)
  /\ no_dot name = true
  /\ systemVariables !! name = None
  /\ redactVariables !! name = None.
Proof.
  repeat split.
  - destruct name as [|c rest]; [discriminate|].
    unfold valid_operator_name in Hvalid.
    destruct (ascii_dec c "$") as [->|Hc]; [eauto|].
    destruct c as [[] [] [] [] [] [] [] []]; try discriminate Hvalid.
    contradiction Hc; reflexivity.
  - destruct name as [|c rest]; [discriminate|].
    assert (Hrest : c = "$"%char /\ forallb word_char (list_ascii_of_string rest) = true).
    { unfold valid_operator_name in Hvalid.
      destruct c as [[] [] [] [] [] [] [] []]; try discriminate Hvalid. split; auto. }
    destruct Hrest as [-> Hrest]. unfold no_dot. cbn [list_ascii_of_string forallb].
    change (negb (Ascii.eqb "$" ".")) with true. cbn [andb].
    induction rest as [|c rest IH]; [reflexivity|].
    cbn [list_ascii_of_string forallb] in *.
    apply andb_prop in Hrest as [Hc Hrest].
    rewrite (word_char_not_dot c Hc). cbn [negb andb]. apply IH.
    unfold valid_operator_name. exact Hrest. exact Hrest.
  - destruct (systemVariables !! name) as [variable|] eqn:Hlook; [|reflexivity].
    destruct (systemVariables_names _ _ Hlook) as [->|[->| ->]]; discriminate Hvalid.
  - destruct (redactVariables !! name) as [handler|] eqn:Hlook; [|reflexivity].
    destruct (redactVariables_names _ _ Hlook) as [->|[->| ->]]; discriminate Hvalid.
Qed.

Lemma valid_operator_name_plain_witness :
  no_dot "$floor" = true /\ systemVariables !! "$floor" = None.
Proof.
  destruct (valid_operator_name_plain "$floor" eq_refl) as (_ & Hdot & Hsystem & _).
  split; assumption.
Defined.

(** X6. A batch that holds a name not matching the pattern is never
    registered: [addOperators] fails and the registry stays as it was; when
    that name is the first of the batch the failure is InvalidOperatorName
    for it. *)
Theorem addOperators_invalid_name
    (resolve : value -> string -> option ResolveOptions -> value) (cls : OperatorType)
    (newOperators : list (string * RawFunction cls)) (OPERATORS : Registry) (name : string)
    (Hin : In name (map fst newOperators))
    (Hinvalid : valid_operator_name name = false) :
  (exists e, addOperators resolve cls newOperators OPERATORS = (OPERATORS, Throw e))
  /\ (forall fn rest, newOperators = (name, fn) :: rest ->
        addOperators resolve cls newOperators OPERATORS
        = (OPERATORS, Throw (InvalidOperatorName name))).
Proof.
  split.
  - rewrite addOperators_unfold.
    pose proof (checkOperators_first cls newOperators OPERATORS) as Hfirst.
    destruct (snd (checkOperators cls newOperators OPERATORS)) as [u|e|].
    + exfalso. apply in_map_iff in Hin as ([op fn] & <- & Hentry).
      rewrite Forall_forall in Hfirst. apply list_elem_of_In in Hentry.
      destruct (Hfirst _ Hentry) as [Hvalid _]. cbn [fst] in *. congruence.
    + eauto.
    + contradiction.
  - intros fn rest ->. unfold addOperators. cbn [checkOperators].
    unfold reg_bind, reg_assert, assert. rewrite Hinvalid. reflexivity.
Qed.

Lemma addOperators_invalid_name_witness :
  addOperators resolve_path EXPRESSION [("$a.b", dollar_floor)] Samples.operators
  = (Samples.operators, Throw (InvalidOperatorName "$a.b")).
Proof.
  apply (addOperators_invalid_name resolve_path EXPRESSION [("$a.b", dollar_floor)]
           Samples.operators "$a.b" ltac:(left; reflexivity) eq_refl) with (fn := dollar_floor)
                                                                          (rest := []).
  reflexivity.
Defined.

(** ** Variables and field paths *)

Section EvaluationFacts.

Variable resolve : value -> string -> option ResolveOptions -> value.
Variable OPERATORS : Registry.

Lemma is_operator_key_false key :
  is_operator_key OPERATORS key = false <->
  getOperator OPERATORS EXPRESSION (Some key) = None
  /\ getOperator OPERATORS ACCUMULATOR (Some key) = None.
Proof.
  unfold is_operator_key. cbn [existsb]. rewrite !getOperator_lookup. unfold has.
  destruct (table OPERATORS EXPRESSION !! key), (table OPERATORS ACCUMULATOR !! key);
    cbn [orb]; split; intros H; try discriminate H; try (destruct H; discriminate); auto.
Qed.

Lemma mapM_Forall2 {A B : Type} (f : A -> result B) (l : list A) (l' : list B) :
  mapM f l = Ok l' <-> Forall2 (fun x y => f x = Ok y) l l'.
Proof.
  revert l'. induction l as [|x l IH]; intros l'; cbn [mapM].
  - split.
    + intros [= <-]. constructor.
    + intros H. apply Forall2_nil_inv_l in H as ->. reflexivity.
  - split.
    + destruct (f x) as [y| |] eqn:Hx; cbn [bind]; try discriminate.
      destruct (mapM f l) as [ys| |] eqn:Hl; cbn [bind]; try discriminate.
      intros [= <-]. constructor; [exact Hx|]. apply IH. reflexivity.
    + intros H. apply Forall2_cons_inv_l in H as (y & ys & Hx & Hrest & ->).
      rewrite Hx. cbn [bind]. apply IH in Hrest. rewrite Hrest. reflexivity.
Qed.

Lemma ordinary_key_proto key : ordinary_key key = true -> String.eqb key proto_key = false.
Proof.
  unfold ordinary_key. intros H. apply andb_prop in H as [H _].
  destruct (String.eqb key proto_key); [discriminate H|reflexivity].
Qed.

Lemma put_entry_fresh {A : Type} key (v : A) (res : list (string * A)) :
  ~ In key (map fst res) -> put_entry key v res = res ++ [(key, v)].
Proof.
  induction res as [|[k w] res IH]; intros Hfresh; cbn [put_entry app].
  - reflexivity.
  - destruct (String.eqb k key) eqn:Hk.
    + apply String.eqb_eq in Hk. exfalso. apply Hfresh. left. exact Hk.
    + rewrite IH; [reflexivity|]. intros H. apply Hfresh. right. exact H.
Qed.

Lemma set_entry_fresh {A : Type} key (v : A) (res : list (string * A)) :
  ordinary_key key = true ->
  ~ In key (map fst res) -> set_entry key v res = res ++ [(key, v)].
Proof.
  intros Hkey Hfresh. unfold set_entry. rewrite (ordinary_key_proto key Hkey).
  apply put_entry_fresh. exact Hfresh.
Qed.

End EvaluationFacts.

(** X7. With an operator name that is not registered, the string
    [$$CURRENT] evaluates to the current document, [$$REMOVE] to the absent
    value, and [$$ROOT] to the root bound in the options or, when none is
    bound, to the current document. *)
Theorem computeValue_system_variable
    (resolve : value -> string -> option ResolveOptions -> value) (OPERATORS : Registry)
    (fuel : nat) (obj : value) (operator : option string) (options : option ComputeOptions)
    (Hexpression : getOperator OPERATORS EXPRESSION operator = None)
    (Haccumulator : getOperator OPERATORS ACCUMULATOR operator = None) :
  computeValue resolve OPERATORS (S fuel) obj (VStr "$$CURRENT") operator options = Ok obj
  /\ computeValue resolve OPERATORS (S fuel) obj (VStr "$$REMOVE") operator options
     = Ok VUndefined
  /\ computeValue resolve OPERATORS (S fuel) obj (VStr "$$ROOT") operator options
     = Ok (match options with
           | Some o => match root o with Some r => r | None => obj end
           | None => obj
           end).
Proof.
  rewrite !computeValue_unfold. unfold computeValue_body.
  rewrite Hexpression, Haccumulator.
  repeat split; try reflexivity.
  destruct options as [[c [r|]]|]; reflexivity.
Qed.

Lemma computeValue_system_variable_witness :
  computeValue resolve_path Samples.operators 1 Samples.doc_ab (VStr "$$ROOT") None
    (Some {| config := None; root := Some Samples.family |}) = Ok Samples.family.
Proof.
  exact (proj2 (proj2 (computeValue_system_variable resolve_path Samples.operators 0
                         Samples.doc_ab None
                         (Some {| config := None; root := Some Samples.family |})
                         eq_refl eq_refl))).
Defined.

(** X8. With an operator name that is not registered, a string that begins
    with one [$] and not with two evaluates to the rest of the string
    resolved as a field path against the current document. *)
Theorem computeValue_field_path
    (resolve : value -> string -> option ResolveOptions -> value) (OPERATORS : Registry)
    (fuel : nat) (obj : value) (path : string) (operator : option string)
    (options : option ComputeOptions)
    (Hexpression : getOperator OPERATORS EXPRESSION operator = None)
    (Haccumulator : getOperator OPERATORS ACCUMULATOR operator = None)
    (Hpath : forall rest, path <> String "$" rest) :
  computeValue resolve OPERATORS (S fuel) obj (VStr (String "$" path)) operator options
  = Ok (resolve obj path None).
Proof.
  rewrite computeValue_unfold. unfold computeValue_body.
  rewrite Hexpression, Haccumulator. cbv beta iota. f_equal.
  unfold computeVariable.
  assert (Hredact : has redactVariables (VStr (String "$" path)) = false).
  { unfold has. destruct (redactVariables !! String "$" path) as [handler|] eqn:Hlook;
      [|reflexivity].
    exfalso. destruct (redactVariables_names _ _ Hlook) as [H|[H|H]];
      injection H as H; exact (Hpath _ H). }
  rewrite Hredact.
  assert (Hsystem : get systemVariables (VStr (hd EmptyString (split_dot (String "$" path))))
                    = None).
  { cbn [get]. destruct (systemVariables !! _) as [variable|] eqn:Hlook; [|reflexivity].
    exfalso. apply systemVariables_names in Hlook.
    cbn [split_dot] in Hlook. change (Ascii.eqb "$" ".") with false in Hlook.
    cbv iota in Hlook.
    destruct path as [|c path].
    - cbn in Hlook. destruct Hlook as [H|[H|H]]; discriminate H.
    - cbn [split_dot] in Hlook.
      destruct (Ascii.eqb c ".") eqn:Hc.
      + cbn [hd] in Hlook. destruct Hlook as [H|[H|H]]; discriminate H.
      + destruct (split_dot path) as [|seg segs]; cbn [hd] in Hlook;
          destruct Hlook as [H|[H|H]]; injection H as H; intros;
          subst; exact (Hpath _ eq_refl). }
  rewrite Hsystem. reflexivity.
Qed.

Lemma computeValue_field_path_witness :
  computeValue resolve_path Samples.operators 1 Samples.doc_ab (VStr "$a.b") None None
  = Ok (int 1).
Proof.
  apply (computeValue_field_path resolve_path Samples.operators 0 Samples.doc_ab "a.b"
           None None eq_refl eq_refl).
  intros rest. discriminate.
Defined.

(** ** Arrays and mappings *)

(** X9. With an operator name that is not registered, an array expression
    evaluates member by member, each with no operator, in order: the call
    returns a value exactly when every member does, and that value is the
    array of the members' values, of the same length. *)
Theorem computeValue_array
    (resolve : value -> string -> option ResolveOptions -> value) (OPERATORS : Registry)
    (fuel : nat) (obj : value) (items : list value) (operator : option string)
    (options : option ComputeOptions)
    (Hexpression : getOperator OPERATORS EXPRESSION operator = None)
    (Haccumulator : getOperator OPERATORS ACCUMULATOR operator = None) :
  let outcome := computeValue resolve OPERATORS (S fuel) obj (VArr items) operator options in
  (forall v, outcome = Ok v <->
     exists items',
       v = VArr items'
       /\ Forall2 (fun item r => computeValue resolve OPERATORS fuel obj item None options = Ok r)
                  items items')
  /\ (forall items', outcome = Ok (VArr items') -> length items' = length items).
Proof.
  intros outcome.
  assert (Hout : outcome =
            let* items' :=
              mapM (fun item => computeValue resolve OPERATORS fuel obj item None options)
                   items in
            Ok (VArr items')).
  { subst outcome. rewrite computeValue_unfold. unfold computeValue_body.
    rewrite Hexpression, Haccumulator. cbv beta iota.
    f_equal. induction items as [|item items IH]; [reflexivity|].
    cbn [mapM]. rewrite IH.
    change (cap_computeValue (capabilities resolve OPERATORS fuel))
      with (computeValue resolve OPERATORS fuel).
    rewrite computeValue_ensure_config. reflexivity. }
  assert (Hiff : forall v, outcome = Ok v <->
            exists items',
              v = VArr items'
              /\ Forall2 (fun item r =>
                            computeValue resolve OPERATORS fuel obj item None options = Ok r)
                         items items').
  { intros v. rewrite Hout. split.
    - destruct (mapM _ items) as [items'| |] eqn:Hmap; cbn [bind]; try discriminate.
      intros [= <-]. exists items'. split; [reflexivity|]. apply mapM_Forall2. exact Hmap.
    - intros (items' & -> & Hall). apply mapM_Forall2 in Hall. rewrite Hall. reflexivity. }
  split; [exact Hiff|].
  intros items' Hok. apply Hiff in Hok as (items'' & [= ->] & Hall).
  symmetry. exact (Forall2_length _ _ _ Hall).
Qed.

Lemma computeValue_array_witness :
  computeValue resolve_path Samples.operators 2 Samples.family
    (VArr [int 1; VStr "$name"]) None None
  = Ok (VArr [int 1; VStr "top"]).
Proof.
  apply (computeValue_array resolve_path Samples.operators 1 Samples.family
           [int 1; VStr "$name"] None None eq_refl eq_refl).
  exists [int 1; VStr "top"]. split; [reflexivity|]. repeat constructor.
Defined.

Section Mappings.

Variable resolve : value -> string -> option ResolveOptions -> value.
Variable OPERATORS : Registry.
Variable fuel : nat.

Let self : Capabilities := capabilities resolve OPERATORS fuel.

Lemma fresh_key_step (res : list (string * value)) key (v : value) (rest : list string) :
  ordinary_key key = true ->
  NoDup (map fst res ++ key :: rest) ->
  set_entry key v res = res ++ [(key, v)]
  /\ NoDup (map fst (res ++ [(key, v)]) ++ rest).
Proof.
  intros Hordinary Hdistinct. split.
  - apply set_entry_fresh; [exact Hordinary|]. intros Hin.
    apply NoDup_app in Hdistinct as (_ & Hdisjoint & _).
    apply (Hdisjoint key); [apply list_elem_of_In; exact Hin|left].
  - rewrite map_app. cbn [map fst]. rewrite <- app_assoc. exact Hdistinct.
Qed.

Lemma computeEntries_build obj expr options entries :
  Forall (fun entry => is_operator_key OPERATORS (fst entry) = false) entries ->
  Forall (fun entry => ordinary_key (fst entry) = true) entries ->
  forall res v,
    NoDup (map fst res ++ map fst entries) ->
    computeEntries OPERATORS self obj expr options entries res = Ok v <->
    exists entries',
      v = VObj (res ++ entries')
      /\ Forall2 (fun entry entry' =>
                    fst entry' = fst entry
                    /\ cap_computeValue self obj (snd entry) (Some (fst entry)) (Some options)
                       = Ok (snd entry'))
                 entries entries'.
Proof.
  induction entries as [|[key val] entries IH]; intros Hkeys Hordinary res v Hdistinct.
  - cbn [computeEntries]. split.
    + intros [= <-]. exists []. rewrite app_nil_r. split; [reflexivity|constructor].
    + intros (entries' & -> & Hall). apply Forall2_nil_inv_l in Hall as ->.
      rewrite app_nil_r. reflexivity.
  - apply Forall_cons in Hkeys as [Hkey Hkeys]. cbn [fst snd] in Hkey.
    apply Forall_cons in Hordinary as [Hord Hordinary]. cbn [fst] in Hord.
    cbn [computeEntries]. cbn [map fst] in Hdistinct.
    split.
    + destruct (cap_computeValue self obj val (Some key) (Some options)) as [w| |] eqn:Hval;
        cbn [bind]; try discriminate.
      rewrite Hkey.
      destruct (fresh_key_step res key w _ Hord Hdistinct) as [-> Hdistinct'].
      intros Hrest. apply IH in Hrest as (entries' & -> & Hall); try assumption.
      exists ((key, w) :: entries'). rewrite <- app_assoc. split; [reflexivity|].
      constructor; [split; [reflexivity|exact Hval]|exact Hall].
    + intros (entries' & -> & Hall).
      apply Forall2_cons_inv_l in Hall as ([key' w] & rest' & [Hk Hval] & Hall & ->).
      cbn [fst snd] in *. subst key'. rewrite Hval. cbn [bind]. rewrite Hkey.
      destruct (fresh_key_step res key w _ Hord Hdistinct) as [-> Hdistinct'].
      apply IH; try assumption.
      exists rest'. rewrite <- app_assoc. split; [reflexivity|exact Hall].
Qed.

Lemma accumulateEntries_build collection expr options entries :
  Forall (fun entry => getOperator OPERATORS ACCUMULATOR (Some (fst entry)) = None) entries ->
  Forall (fun entry => ordinary_key (fst entry) = true) entries ->
  forall res v,
    NoDup (map fst res ++ map fst entries) ->
    accumulateEntries OPERATORS self collection expr options entries res = Ok v <->
    exists entries',
      v = VObj (res ++ entries')
      /\ Forall2 (fun entry entry' =>
                    fst entry' = fst entry
                    /\ cap_accumulate self collection (fst entry) (snd entry) options
                       = Ok (snd entry'))
                 entries entries'.
Proof.
  induction entries as [|[key val] entries IH]; intros Hkeys Hordinary res v Hdistinct.
  - cbn [accumulateEntries]. split.
    + intros [= <-]. exists []. rewrite app_nil_r. split; [reflexivity|constructor].
    + intros (entries' & -> & Hall). apply Forall2_nil_inv_l in Hall as ->.
      rewrite app_nil_r. reflexivity.
  - apply Forall_cons in Hkeys as [Hkey Hkeys]. cbn [fst snd] in Hkey.
    apply Forall_cons in Hordinary as [Hord Hordinary]. cbn [fst] in Hord.
    cbn [accumulateEntries]. cbn [map fst] in Hdistinct.
    split.
    + destruct (cap_accumulate self collection key val options) as [w| |] eqn:Hval;
        cbn [bind]; try discriminate.
      rewrite Hkey.
      destruct (fresh_key_step res key w _ Hord Hdistinct) as [-> Hdistinct'].
      intros Hrest. apply IH in Hrest as (entries' & -> & Hall); try assumption.
      exists ((key, w) :: entries'). rewrite <- app_assoc. split; [reflexivity|].
      constructor; [split; [reflexivity|exact Hval]|exact Hall].
    + intros (entries' & -> & Hall).
      apply Forall2_cons_inv_l in Hall as ([key' w] & rest' & [Hk Hval] & Hall & ->).
      cbn [fst snd] in *. subst key'. rewrite Hval. cbn [bind]. rewrite Hkey.
      destruct (fresh_key_step res key w _ Hord Hdistinct) as [-> Hdistinct'].
      apply IH; try assumption.
      exists rest'. rewrite <- app_assoc. split; [reflexivity|exact Hall].
Qed.

End Mappings.

(** X10. With an operator name that is not registered, a mapping of which
    no key is registered as an expression operator or an accumulator, the
    keys being distinct and ordinary (not [__proto__], not strings of
    digits), evaluates entry by entry, each value under its own key as
    operator name: the call returns a value exactly when every entry does,
    and that value is the mapping with the same keys in the same order,
    each holding the value of its entry. *)
Theorem computeValue_mapping
    (resolve : value -> string -> option ResolveOptions -> value) (OPERATORS : Registry)
    (fuel : nat) (obj : value) (entries : list (string * value)) (operator : option string)
    (options : option ComputeOptions)
    (Hexpression : getOperator OPERATORS EXPRESSION operator = None)
    (Haccumulator : getOperator OPERATORS ACCUMULATOR operator = None)
    (Hkeys : Forall (fun entry => is_operator_key OPERATORS (fst entry) = false) entries)
    (Hordinary : Forall (fun entry => ordinary_key (fst entry) = true) entries)
    (Hdistinct : NoDup (map fst entries)) (v : value) :
  computeValue resolve OPERATORS (S fuel) obj (VObj entries) operator options = Ok v <->
  exists entries',
    v = VObj entries'
    /\ Forall2 (fun entry entry' =>
                  fst entry' = fst entry
                  /\ computeValue resolve OPERATORS fuel obj (snd entry) (Some (fst entry))
                       options = Ok (snd entry'))
               entries entries'.
Proof.
  rewrite computeValue_unfold. unfold computeValue_body.
  rewrite Hexpression, Haccumulator. cbv beta iota.
  rewrite (computeEntries_build resolve OPERATORS fuel obj (VObj entries)
             (ensure_config options) entries Hkeys Hordinary [] v Hdistinct).
  cbn [app].
  split; intros (entries' & -> & Hall); exists entries'; (split; [reflexivity|]);
    (eapply Forall2_impl; [exact Hall|]); intros entry entry' [Hk Hval];
    (split; [exact Hk|]).
  - rewrite <- Hval. symmetry. apply computeValue_ensure_config.
  - rewrite <- Hval. apply computeValue_ensure_config.
Qed.

Lemma computeValue_mapping_witness :
  computeValue resolve_path Samples.operators 2 Samples.family
    (VObj [("who", VStr "$name"); ("n", int 1)]) None None
  = Ok (VObj [("who", VStr "top"); ("n", int 1)]).
Proof.
  apply (computeValue_mapping resolve_path Samples.operators 1 Samples.family
           [("who", VStr "$name"); ("n", int 1)] None None eq_refl eq_refl).
  - repeat constructor.
  - repeat constructor.
  - refine (bool_decide_unpack _ _). vm_compute. exact I.
  - exists [("who", VStr "top"); ("n", int 1)]. split; [reflexivity|].
    repeat constructor.
Defined.

(** an entry named [__proto__] leaves no field in the mapping that is
    built *)
Example computeValue_proto_entry :
  computeValue resolve_path Samples.operators 2 Samples.doc_ab
    (VObj [("__proto__", int 1); ("a", int 2)]) None Samples.no_options
  = Ok (VObj [("a", int 2)]).
Proof. reflexivity. Qed.

Example accumulate_proto_entry :
  accumulate resolve_path Samples.operators 5 (VArr [VObj [("a", int 1)]]) "$group"
    (VObj [("__proto__", VObj [("$sum", VStr "$a")]); ("n", VObj [("$sum", VStr "$a")])])
    Samples.no_options
  = Ok (VObj [("n", int 1)]).
Proof. reflexivity. Qed.

(** X11. When [field] is no registered accumulator and [expr] is a mapping
    of which no key names a registered accumulator, the keys being distinct
    and ordinary (not [__proto__], not strings of digits), [accumulate]
    reduces the collection entry by entry, each value under its own key as field:
    the call returns a value exactly when every entry does, and that value
    is the mapping with the same keys in the same order, each holding the
    accumulated value of its entry. *)
Theorem accumulate_mapping
    (resolve : value -> string -> option ResolveOptions -> value) (OPERATORS : Registry)
    (fuel : nat) (collection : value) (field : string) (entries : list (string * value))
    (options : option ComputeOptions)
    (Hfield : getOperator OPERATORS ACCUMULATOR (Some field) = None)
    (Hkeys : Forall (fun entry => getOperator OPERATORS ACCUMULATOR (Some (fst entry)) = None)
                    entries)
    (Hordinary : Forall (fun entry => ordinary_key (fst entry) = true) entries)
    (Hdistinct : NoDup (map fst entries)) (v : value) :
  accumulate resolve OPERATORS (S fuel) collection field (VObj entries) options = Ok v <->
  exists entries',
    v = VObj entries'
    /\ Forall2 (fun entry entry' =>
                  fst entry' = fst entry
                  /\ accumulate resolve OPERATORS fuel collection (fst entry) (snd entry)
                       options = Ok (snd entry'))
               entries entries'.
Proof.
  rewrite accumulate_unfold. unfold accumulate_body. rewrite Hfield.
  rewrite (accumulateEntries_build resolve OPERATORS fuel collection (VObj entries)
             options entries Hkeys Hordinary [] v Hdistinct).
  reflexivity.
Qed.

Lemma accumulate_mapping_witness :
  accumulate resolve_path Samples.operators 4
    (VArr [VObj [("a", int 1)]; VObj [("a", int 2)]]) "$group"
    (VObj [("total", VObj [("$sum", VStr "$a")]); ("tag", VStr "x")]) Samples.no_options
  = Ok (VObj [("total", int 3); ("tag", VUndefined)]).
Proof.
  apply (accumulate_mapping resolve_path Samples.operators 3
           (VArr [VObj [("a", int 1)]; VObj [("a", int 2)]]) "$group"
           [("total", VObj [("$sum", VStr "$a")]); ("tag", VStr "x")] Samples.no_options
           eq_refl).
  - repeat constructor.
  - repeat constructor.
  - refine (bool_decide_unpack _ _). vm_compute. exact I.
  - exists [("total", int 3); ("tag", VUndefined)]. split; [reflexivity|].
    repeat constructor.
Defined.

(** ** Expressions without operators *)

Lemma depth_item item items : In item items -> depth item < depth (VArr items).
Proof.
  intros Hin. cbn [depth]. apply Nat.lt_succ_r.
  pose proof (list_max_le (map depth items) (list_max (map depth items))) as [Hmax _].
  specialize (Hmax (Nat.le_refl _)). rewrite List.Forall_forall in Hmax.
  apply Hmax. apply in_map. exact Hin.
Qed.

Lemma depth_entry entry entries :
  In entry entries -> depth (snd entry) < depth (VObj entries).
Proof.
  intros Hin. cbn [depth]. apply Nat.lt_succ_r.
  pose proof (list_max_le (map (fun e => depth (snd e)) entries)
                (list_max (map (fun e => depth (snd e)) entries))) as [Hmax _].
  specialize (Hmax (Nat.le_refl _)). rewrite List.Forall_forall in Hmax.
  apply Hmax. apply (in_map (fun e => depth (snd e))). exact Hin.
Qed.

Lemma ordinary_keys_item item items :
  ordinary_keys (VArr items) -> In item items -> ordinary_keys item.
Proof.
  cbn [ordinary_keys]. induction items as [|x items IH]; cbn [fold_right]; intros H Hin.
  - destruct Hin.
  - destruct H as [Hx Hrest]. destruct Hin as [->|Hin]; [exact Hx|]. apply IH; assumption.
Qed.

Lemma ordinary_keys_entry entry entries :
  ordinary_keys (VObj entries) -> In entry entries -> ordinary_keys (snd entry).
Proof.
  cbn [ordinary_keys]. intros [_ H]. induction entries as [|x entries IH];
    cbn [fold_right] in *; intros Hin.
  - destruct Hin.
  - destruct H as [Hx Hrest]. destruct Hin as [->|Hin]; [exact Hx|]. apply IH; assumption.
Qed.

Section OperatorFree.

Variable resolve : value -> string -> option ResolveOptions -> value.
Variable OPERATORS : Registry.

Lemma computeEntries_total self obj expr options entries :
  Forall (fun entry =>
            is_operator_key OPERATORS (fst entry) = false
            /\ exists r, cap_computeValue self obj (snd entry) (Some (fst entry))
                           (Some options) = Ok r) entries ->
  forall res, exists r, computeEntries OPERATORS self obj expr options entries res = Ok r.
Proof.
  induction entries as [|[key val] entries IH]; intros Hall res; cbn [computeEntries].
  - eauto.
  - apply Forall_cons in Hall as [[Hkey [r Hr]] Hall]. cbn [fst snd] in *.
    rewrite Hr, Hkey. cbn [bind]. apply IH. exact Hall.
Qed.

Lemma mapM_total {A B : Type} (f : A -> result B) (l : list A) :
  Forall (fun x => exists y, f x = Ok y) l -> exists l', mapM f l = Ok l'.
Proof.
  induction l as [|x l IH]; intros Hall; cbn [mapM]; [eauto|].
  apply Forall_cons in Hall as [[y Hy] Hall]. destruct (IH Hall) as [l' Hl'].
  rewrite Hy, Hl'. cbn [bind]. eauto.
Qed.

Lemma mapM_same {A : Type} (f : A -> result A) (l : list A) :
  Forall (fun x => f x = Ok x) l -> mapM f l = Ok l.
Proof.
  induction l as [|x l IH]; intros Hall; cbn [mapM]; [reflexivity|].
  apply Forall_cons in Hall as [Hx Hall]. rewrite Hx, (IH Hall). reflexivity.
Qed.

Lemma mapM_no_failure {A B : Type} (f : A -> result B) (l : list A) :
  Forall (fun x => forall e, f x <> Throw e) l -> forall e, mapM f l <> Throw e.
Proof.
  induction l as [|x l IH]; intros Hall e; cbn [mapM]; [discriminate|].
  apply Forall_cons in Hall as [Hx Hall].
  destruct (f x) as [y|e'|] eqn:Hfx; cbn [bind];
    [|exfalso; apply (Hx e'); first [exact Hfx|reflexivity]|discriminate].
  pose proof (IH Hall) as Hl.
  destruct (mapM f l) as [ys|e'|]; cbn [bind]; [discriminate| |discriminate].
  exfalso. exact (Hl e' eq_refl).
Qed.

Lemma computeEntries_no_failure self obj expr options entries :
  Forall (fun entry =>
            is_operator_key OPERATORS (fst entry) = false
            /\ forall e, cap_computeValue self obj (snd entry) (Some (fst entry))
                           (Some options) <> Throw e) entries ->
  forall res e, computeEntries OPERATORS self obj expr options entries res <> Throw e.
Proof.
  induction entries as [|[key val] entries IH]; intros Hall res e; cbn [computeEntries].
  - discriminate.
  - apply Forall_cons in Hall as [[Hkey Hval] Hall]. cbn [fst snd] in *.
    destruct (cap_computeValue self obj val (Some key) (Some options)) as [w|e'|] eqn:Hw;
      cbn [bind]; [|exfalso; apply (Hval e'); first [exact Hw|reflexivity]|discriminate].
    rewrite Hkey. apply IH. exact Hall.
Qed.

Lemma operator_free_entry entry entries :
  operator_free OPERATORS (VObj entries) = true -> In entry entries ->
  is_operator_key OPERATORS (fst entry) = false
  /\ operator_free OPERATORS (snd entry) = true.
Proof.
  cbn [operator_free]. rewrite forallb_forall. intros H Hin.
  specialize (H entry Hin). apply andb_prop in H as [Hkey Hval].
  split; [|exact Hval]. destruct (is_operator_key OPERATORS (fst entry)); [discriminate|reflexivity].
Qed.

Lemma operator_free_item item items :
  operator_free OPERATORS (VArr items) = true -> In item items ->
  operator_free OPERATORS item = true.
Proof. cbn [operator_free]. rewrite forallb_forall. auto. Qed.

(** the value of an expression without operators, once the operator name
    is out of the way *)
Lemma computeValue_plain_unfold fuel obj expr operator options :
  getOperator OPERATORS EXPRESSION operator = None ->
  getOperator OPERATORS ACCUMULATOR operator = None ->
  computeValue resolve OPERATORS (S fuel) obj expr operator options
  = match expr with
    | VStr (String "$" _ as s) => Ok (computeVariable resolve obj s (ensure_config options))
    | VArr items =>
        let* items' :=
          mapM (fun item => computeValue resolve OPERATORS fuel obj item None
                              (Some (ensure_config options))) items in
        Ok (VArr items')
    | VObj entries =>
        computeEntries OPERATORS (capabilities resolve OPERATORS fuel) obj expr
          (ensure_config options) entries []
    | _ => Ok expr
    end.
Proof.
  intros Hexp Hacc. rewrite computeValue_unfold. unfold computeValue_body.
  rewrite Hexp, Hacc. reflexivity.
Qed.

Lemma computeValue_total_free fuel :
  forall obj expr operator options,
    depth expr < fuel ->
    operator_free OPERATORS expr = true ->
    getOperator OPERATORS EXPRESSION operator = None ->
    getOperator OPERATORS ACCUMULATOR operator = None ->
    exists v, computeValue resolve OPERATORS fuel obj expr operator options = Ok v.
Proof.
  induction fuel as [|fuel IH]; intros obj expr operator options Hdepth Hfree Hexp Hacc;
    [lia|].
  rewrite (computeValue_plain_unfold _ _ _ _ _ Hexp Hacc).
  destruct expr as [| | | |s|items|entries]; try (eexists; reflexivity).
  - destruct s as [|c s]; [eexists; reflexivity|].
    destruct c as [[] [] [] [] [] [] [] []]; eexists; reflexivity.
  - destruct (mapM_total
                (fun item => computeValue resolve OPERATORS fuel obj item None
                               (Some (ensure_config options))) items) as [items' ->].
    + rewrite Forall_forall. intros item Hin. apply list_elem_of_In in Hin.
      apply IH; try reflexivity.
      * pose proof (depth_item item items Hin). lia.
      * exact (operator_free_item item items Hfree Hin).
    + eexists. reflexivity.
  - apply computeEntries_total. rewrite Forall_forall. intros entry Hin.
    apply list_elem_of_In in Hin.
    destruct (operator_free_entry entry entries Hfree Hin) as [Hkey Hval].
    split; [exact Hkey|]. apply is_operator_key_false in Hkey as [Hk1 Hk2].
    apply IH; try assumption.
    pose proof (depth_entry entry entries Hin). lia.
Qed.

Lemma computeValue_no_failure_free fuel :
  forall obj expr operator options e,
    operator_free OPERATORS expr = true ->
    getOperator OPERATORS EXPRESSION operator = None ->
    getOperator OPERATORS ACCUMULATOR operator = None ->
    computeValue resolve OPERATORS fuel obj expr operator options <> Throw e.
Proof.
  induction fuel as [|fuel IH]; intros obj expr operator options e Hfree Hexp Hacc;
    [discriminate|].
  rewrite (computeValue_plain_unfold _ _ _ _ _ Hexp Hacc).
  destruct expr as [| | | |s|items|entries]; try discriminate.
  - destruct s as [|c s]; [discriminate|].
    destruct c as [[] [] [] [] [] [] [] []]; discriminate.
  - pose proof (mapM_no_failure
                  (fun item => computeValue resolve OPERATORS fuel obj item None
                                 (Some (ensure_config options))) items) as Hmap.
    assert (Hitems : Forall (fun item => forall e',
                        computeValue resolve OPERATORS fuel obj item None
                          (Some (ensure_config options)) <> Throw e') items).
    { rewrite Forall_forall. intros item Hin e'. apply list_elem_of_In in Hin.
      apply IH; try reflexivity. exact (operator_free_item item items Hfree Hin). }
    specialize (Hmap Hitems).
    destruct (mapM _ items) as [items'|e'|]; cbn [bind]; [discriminate| |discriminate].
    exfalso. exact (Hmap e' eq_refl).
  - apply computeEntries_no_failure. rewrite Forall_forall. intros entry Hin.
    apply list_elem_of_In in Hin.
    destruct (operator_free_entry entry entries Hfree Hin) as [Hkey Hval].
    split; [exact Hkey|]. apply is_operator_key_false in Hkey as [Hk1 Hk2].
    intros e'. apply IH; assumption.
Qed.

End OperatorFree.

(** X12. An expression in which no mapping has a registered operator key,
    evaluated with an operator name that is not registered, never fails,
    whatever the document and the variables and paths it names; and it
    returns a value as soon as the fuel exceeds its nesting.  Every failure
    of [computeValue] comes from an operator or from the single-operator
    rule. *)
Theorem computeValue_operator_free
    (resolve : value -> string -> option ResolveOptions -> value) (OPERATORS : Registry)
    (obj expr : value) (operator : option string) (options : option ComputeOptions)
    (Hfree : operator_free OPERATORS expr = true)
    (Hexpression : getOperator OPERATORS EXPRESSION operator = None)
    (Haccumulator : getOperator OPERATORS ACCUMULATOR operator = None) :
  (forall fuel e, computeValue resolve OPERATORS fuel obj expr operator options <> Throw e)
  /\ (forall fuel, depth expr < fuel ->
        exists v, computeValue resolve OPERATORS fuel obj expr operator options = Ok v).
Proof.
  split.
  - intros fuel e. apply computeValue_no_failure_free; assumption.
  - intros fuel Hdepth. apply computeValue_total_free; assumption.
Qed.

Lemma computeValue_operator_free_witness :
  exists v,
    computeValue resolve_path Samples.operators 3 Samples.family
      (VObj [("names", VArr [VStr "$name"; VStr "$child.name"; VStr "$$ROOT"])]) None None
    = Ok v.
Proof.
  apply (computeValue_operator_free resolve_path Samples.operators Samples.family
           (VObj [("names", VArr [VStr "$name"; VStr "$child.name"; VStr "$$ROOT"])])
           None None eq_refl eq_refl eq_refl).
  cbn. lia.
Defined.

Lemma computeValue_literal_fuel
    (resolve : value -> string -> option ResolveOptions -> value) (OPERATORS : Registry)
    (obj : value) (options : option ComputeOptions) (fuel : nat) :
  forall expr operator,
    depth expr < fuel ->
    operator_free OPERATORS expr = true ->
    variable_free expr = true ->
    ordinary_keys expr ->
    getOperator OPERATORS EXPRESSION operator = None ->
    getOperator OPERATORS ACCUMULATOR operator = None ->
    computeValue resolve OPERATORS fuel obj expr operator options = Ok expr.
Proof.
  induction fuel as [|fuel IH];
    intros expr operator Hdepth Hfree Hvars Hdistinct Hexp Hacc; [lia|].
  rewrite (computeValue_plain_unfold _ _ _ _ _ _ _ Hexp Hacc).
  destruct expr as [| | | |s|items|entries]; try reflexivity.
  - destruct s as [|c s]; [reflexivity|].
    destruct c as [[] [] [] [] [] [] [] []]; try reflexivity. discriminate Hvars.
  - rewrite (mapM_same
               (fun item => computeValue resolve OPERATORS fuel obj item None
                              (Some (ensure_config options))) items); [reflexivity|].
    rewrite Forall_forall. intros item Hin. apply list_elem_of_In in Hin.
    rewrite computeValue_ensure_config. apply IH; try reflexivity.
    + pose proof (depth_item item items Hin). lia.
    + exact (operator_free_item OPERATORS item items Hfree Hin).
    + cbn [variable_free] in Hvars. rewrite forallb_forall in Hvars. exact (Hvars item Hin).
    + exact (ordinary_keys_item item items Hdistinct Hin).
  - assert (Hkeys : Forall (fun entry => is_operator_key OPERATORS (fst entry) = false)
                      entries).
    { rewrite Forall_forall. intros entry Hin. apply list_elem_of_In in Hin.
      exact (proj1 (operator_free_entry OPERATORS entry entries Hfree Hin)). }
    apply (computeEntries_build resolve OPERATORS fuel obj (VObj entries)
             (ensure_config options) entries Hkeys (proj2 (proj1 Hdistinct)) []
             (VObj entries)).
    + exact (proj1 (proj1 Hdistinct)).
    + exists entries. split; [reflexivity|].
      apply Forall2_same_length_lookup. split; [reflexivity|].
      intros i entry entry' Hi Hi'. rewrite Hi in Hi'. injection Hi' as <-.
      split; [reflexivity|].
      apply list_elem_of_lookup_2, list_elem_of_In in Hi.
      destruct (operator_free_entry OPERATORS entry entries Hfree Hi) as [Hkey Hval].
      apply is_operator_key_false in Hkey as [Hk1 Hk2].
      change (cap_computeValue (capabilities resolve OPERATORS fuel))
        with (computeValue resolve OPERATORS fuel).
      rewrite computeValue_ensure_config. apply IH; try assumption.
      * pose proof (depth_entry entry entries Hi). lia.
      * cbn [variable_free] in Hvars. rewrite forallb_forall in Hvars.
        exact (Hvars entry Hi).
      * exact (ordinary_keys_entry entry entries Hdistinct Hi).
Qed.

(** X13. Plain data evaluates to itself: an expression in which no string
    begins with [$] and no mapping has a registered operator key, the keys
    of each mapping being distinct and ordinary (not [__proto__], not
    strings of digits), is returned as it is, member for member and entry
    for entry, once the fuel exceeds its nesting. *)
Theorem computeValue_literal
    (resolve : value -> string -> option ResolveOptions -> value) (OPERATORS : Registry)
    (fuel : nat) (obj expr : value) (operator : option string)
    (options : option ComputeOptions)
    (Hdepth : depth expr < fuel)
    (Hfree : operator_free OPERATORS expr = true)
    (Hvars : variable_free expr = true)
    (Hdistinct : ordinary_keys expr)
    (Hexpression : getOperator OPERATORS EXPRESSION operator = None)
    (Haccumulator : getOperator OPERATORS ACCUMULATOR operator = None) :
  computeValue resolve OPERATORS fuel obj expr operator options = Ok expr.
Proof. apply computeValue_literal_fuel; assumption. Qed.

Lemma computeValue_literal_witness :
  computeValue resolve_path Samples.operators 3 Samples.doc_ab
    (VObj [("tags", VArr [VStr "x"; int 2]); ("on", VBool true)]) None None
  = Ok (VObj [("tags", VArr [VStr "x"; int 2]); ("on", VBool true)]).
Proof.
  apply (computeValue_literal resolve_path Samples.operators 3 Samples.doc_ab
           (VObj [("tags", VArr [VStr "x"; int 2]); ("on", VBool true)]) None None);
    try reflexivity.
  - cbn. lia.
  - cbn. split; [split|repeat split].
    + refine (bool_decide_unpack _ _). vm_compute. exact I.
    + repeat constructor.
Defined.

(** ** Redaction *)



(** the root that a nested call reads lacks the field deleted before *)
Example redact_marked :
  redact resolve_path Samples.redacting 9 Samples.marked Samples.kill_while_a None
  = Ok (VObj [("b", VObj [("c", VObj [("kill", VBool true)])])]).
Proof. reflexivity. Qed.

(** a root bound by the caller is a document apart, and keeps its fields *)
Example redact_marked_apart :
  redact resolve_path Samples.redacting 9 Samples.marked Samples.kill_while_a
    (Some {| config := None; root := Some Samples.marked |})
  = Ok (VObj [("b", VObj [])]).
Proof. reflexivity. Qed.

Lemma redact_descend
    (resolve : value -> string -> option ResolveOptions -> value) (OPERATORS : Registry)
    (fuel : nat) (entries : list (string * value)) (expr : value)
    (options : option ComputeOptions) (v : value) :
  computeValue resolve OPERATORS fuel (VObj entries) expr None options
  = Ok (VStr "$$DESCEND") ->
  redact resolve OPERATORS (S fuel) (VObj entries) expr options = Ok v ->
  if has_property expr "$cond" then
    exists entries',
      v = VObj entries'
      /\ descend_entries (redact_at resolve OPERATORS fuel) (bind_around None options) expr
           (Some (assign_root (VObj entries) (after_computeValue options))) [] entries
         = Ok entries'
  else v = VObj entries.
Proof.
  intros Hcomputed Hredacted. unfold redact in Hredacted.
  cbn [redact_at live_options] in Hredacted. rewrite Hcomputed in Hredacted.
  cbn [bind] in Hredacted.
  change (has redactVariables (VStr "$$DESCEND")) with true in Hredacted.
  cbv iota in Hredacted.
  change (get redactVariables (VStr "$$DESCEND")) with (Some DESCEND) in Hredacted.
  cbv iota in Hredacted. unfold DESCEND in Hredacted.
  destruct (has_property expr "$cond"); cbn [negb] in Hredacted.
  - destruct (descend_entries _ _ _ _ _ entries) as [entries'| |] eqn:Hdescend;
      cbn [bind fst] in Hredacted; try discriminate.
    injection Hredacted as <-. exists entries'. split; reflexivity.
  - cbn [bind fst] in Hredacted. injection Hredacted as <-. reflexivity.
Qed.

Lemma descend_entries_result redact around expr options done rest entries' :
  descend_entries redact around expr options done rest = Ok entries' ->
  exists kept, entries' = done ++ kept /\ map fst kept `sublist_of` map fst rest.
Proof.
  revert done entries'. induction rest as [|[key current] rest IH]; intros done entries';
    cbn [descend_entries].
  - intros [= <-]. exists []. split; [symmetry; apply app_nil_r|constructor].
  - destruct (descend_field _ _ _ _ current) as [r| |]; cbn [bind]; try discriminate.
    intros Hrest. destruct (IH _ _ Hrest) as (kept & -> & Hsub).
    destruct r as [v|].
    + exists ((key, v) :: kept). split; [rewrite <- app_assoc; reflexivity|].
      cbn [map fst]. apply sublist_skip. exact Hsub.
    + exists kept. split; [reflexivity|]. cbn [map fst]. apply sublist_cons. exact Hsub.
Qed.

(** The surroundings matter through the documents they give only. *)
Section Surroundings.

Variable redact : Redactor.
Hypothesis redact_around :
  forall (around around' : value -> value) obj expr options,
    (forall v, around v = around' v) ->
    redact (Some around) obj expr options = redact (Some around') obj expr options.

Lemma descend_elements_around (around around' : value -> value) expr options
    seen kept elems :
  (forall v, around v = around' v) ->
  descend_elements redact (Some around) expr options seen kept elems
  = descend_elements redact (Some around') expr options seen kept elems.
Proof.
  intros Hsame. revert seen kept. induction elems as [|elem elems IH]; intros seen kept;
    cbn [descend_elements option_map]; [reflexivity|].
  destruct (isObject elem); [|apply IH].
  rewrite (redact_around _ (fun elem' => around' (VArr (seen ++ elem' :: elems))))
    by (intros v; apply Hsame).
  destruct (redact _ elem expr options) as [r| |]; cbn [bind]; [apply IH|reflexivity..].
Qed.

Lemma descend_field_around (around around' : value -> value) expr options current :
  (forall v, around v = around' v) ->
  descend_field redact (Some around) expr options current
  = descend_field redact (Some around') expr options current.
Proof.
  intros Hsame. destruct current; cbn [descend_field]; try reflexivity.
  - rewrite (descend_elements_around around around') by exact Hsame. reflexivity.
  - rewrite (redact_around around around') by exact Hsame. reflexivity.
Qed.

Lemma descend_entries_around (around around' : value -> value) expr options done rest :
  (forall v, around v = around' v) ->
  descend_entries redact (Some around) expr options done rest
  = descend_entries redact (Some around') expr options done rest.
Proof.
  intros Hsame. revert done. induction rest as [|[key current] rest IH]; intros done;
    cbn [descend_entries option_map]; [reflexivity|].
  rewrite (descend_field_around _
             (fun current' => around' (VObj (done ++ (key, current') :: rest))))
    by (intros v; apply Hsame).
  destruct (descend_field _ _ _ _ current) as [r| |]; cbn [bind]; [apply IH|reflexivity..].
Qed.

Lemma descend_items_around (around around' : value -> value) expr options done rest :
  (forall v, around v = around' v) ->
  descend_items redact (Some around) expr options done rest
  = descend_items redact (Some around') expr options done rest.
Proof.
  intros Hsame. revert done. induction rest as [|current rest IH]; intros done;
    cbn [descend_items option_map]; [reflexivity|].
  rewrite (descend_field_around _ (fun current' => around' (VArr (done ++ current' :: rest))))
    by (intros v; apply Hsame).
  destruct (descend_field _ _ _ _ current) as [r| |]; cbn [bind]; [apply IH|reflexivity..].
Qed.

Lemma DESCEND_around (around around' : value -> value) obj expr options :
  (forall v, around v = around' v) ->
  DESCEND redact (Some around) obj expr options
  = DESCEND redact (Some around') obj expr options.
Proof.
  intros Hsame. unfold DESCEND. destruct (negb (has_property expr "$cond")); [reflexivity|].
  destruct obj; try reflexivity.
  - rewrite (descend_items_around around around') by exact Hsame. reflexivity.
  - rewrite (descend_entries_around around around') by exact Hsame. reflexivity.
Qed.

Lemma descend_entries_split around expr options done before key current later entries' :
  descend_entries redact around expr options done (before ++ (key, current) :: later)
  = Ok entries' ->
  exists done' r,
    descend_entries redact (fields_to_come ((key, current) :: later) around) expr options
      done before = Ok done'
    /\ descend_field redact (field_of done' key later around) expr options current = Ok r
    /\ descend_entries redact around expr options
         (match r with Some v => done' ++ [(key, v)] | None => done' end) later
       = Ok entries'.
Proof.
  revert done. induction before as [|[key' current'] before IH]; intros done;
    cbn [app descend_entries].
  - intros Hok. exists done.
    destruct (descend_field _ _ _ _ current) as [r| |] eqn:Hfield; cbn [bind] in Hok;
      try discriminate.
    exists r. split; [reflexivity|]. split; [reflexivity|exact Hok].
  - assert (Hsame :
        descend_field redact
          (option_map (fun around0 current'0 =>
                         around0 (VObj (done ++ (key', current'0)
                                             :: before ++ (key, current) :: later))) around)
          expr options current'
        = descend_field redact
            (option_map (fun around0 current'0 =>
                           around0 (VObj (done ++ (key', current'0) :: before)))
               (fields_to_come ((key, current) :: later) around))
            expr options current').
    { destruct around as [around|]; [|reflexivity]. cbn [fields_to_come option_map].
      apply descend_field_around. intros v. rewrite <- app_assoc. reflexivity. }
    rewrite Hsame. clear Hsame.
    destruct (descend_field _ _ _ _ current') as [r'| |]; cbn [bind]; try discriminate.
    apply IH.
Qed.

End Surroundings.

Lemma redact_at_around
    (resolve : value -> string -> option ResolveOptions -> value) (OPERATORS : Registry)
    (fuel : nat) (around around' : value -> value) (obj expr : value)
    (options : option ComputeOptions) :
  (forall v, around v = around' v) ->
  redact_at resolve OPERATORS fuel (Some around) obj expr options
  = redact_at resolve OPERATORS fuel (Some around') obj expr options.
Proof.
  revert around around' obj expr options.
  induction fuel as [|fuel IH]; intros around around' obj expr options Hsame;
    [reflexivity|].
  cbn [redact_at live_options bind_around]. rewrite (Hsame obj).
  destruct (computeValue resolve OPERATORS fuel obj expr None _) as [r| |]; cbn [bind];
    try reflexivity.
  destruct (has redactVariables r) eqn:Hhas; [|reflexivity].
  destruct (has_redactVariables_names r Hhas) as [->|[->| ->]]; try reflexivity.
  change (get redactVariables (VStr "$$DESCEND")) with (Some DESCEND). cbv iota.
  apply DESCEND_around; [|exact Hsame].
  intros a a' obj' expr' options' Ha. apply IH. exact Ha.
Qed.

Lemma descend_field_scalar redact around expr options current :
  scalar current = true ->
  descend_field redact around expr options current = Ok (Some current).
Proof. destruct current; try discriminate; reflexivity. Qed.

Lemma descend_elements_result redact around expr options seen kept elems kept' :
  descend_elements redact around expr options seen kept elems = Ok kept' ->
  exists more,
    kept' = kept ++ more
    /\ Forall (fun x => isNil x = false) more
    /\ length more <= length elems
    /\ (forall x, In x elems -> isObject x = false -> isNil x = false -> In x more).
Proof.
  revert seen kept kept'. induction elems as [|elem elems IH]; intros seen kept kept';
    cbn [descend_elements].
  - intros [= <-]. exists []. split; [symmetry; apply app_nil_r|]. split; [constructor|].
    split; [reflexivity|]. intros x [].
  - destruct (isObject elem) eqn:Hobject.
    + destruct (redact _ elem expr options) as [r| |]; cbn [bind]; try discriminate.
      intros Hrest. destruct (IH _ _ _ Hrest) as (more & -> & Hnil & Hlen & Hkept).
      destruct (isNil (fst r)) eqn:Hr.
      * exists more. split; [reflexivity|]. split; [exact Hnil|]. split; [cbn; lia|].
        intros x [<-|Hin] Hobj Hx; [congruence|]. apply Hkept; assumption.
      * exists (fst r :: more). split; [rewrite <- app_assoc; reflexivity|].
        split; [constructor; assumption|]. split; [cbn; lia|].
        intros x [<-|Hin] Hobj Hx; [congruence|]. right. apply Hkept; assumption.
    + intros Hrest. destruct (IH _ _ _ Hrest) as (more & -> & Hnil & Hlen & Hkept).
      destruct (isNil elem) eqn:Helem.
      * exists more. split; [reflexivity|]. split; [exact Hnil|]. split; [cbn; lia|].
        intros x [<-|Hin] Hobj Hx; [congruence|]. apply Hkept; assumption.
      * exists (elem :: more). split; [rewrite <- app_assoc; reflexivity|].
        split; [constructor; assumption|]. split; [cbn; lia|].
        intros x [<-|Hin] Hobj Hx; [left; reflexivity|]. right. apply Hkept; assumption.
Qed.

(** X15. A redaction that descends never adds a field and never touches a
    field that holds neither an object nor an array: when [redact] on a
    document resolves to [$$DESCEND] and returns, it returns a document
    whose keys are keys of the original, in their order, and in which
    every such field is there with its value. *)
Theorem redact_descend_fields
    (resolve : value -> string -> option ResolveOptions -> value) (OPERATORS : Registry)
    (fuel : nat) (entries : list (string * value)) (expr : value)
    (options : option ComputeOptions) (v : value)
    (Hcomputed : computeValue resolve OPERATORS fuel (VObj entries) expr None options
                 = Ok (VStr "$$DESCEND"))
    (Hredacted : redact resolve OPERATORS (S fuel) (VObj entries) expr options = Ok v) :
  exists entries',
    v = VObj entries'
    /\ map fst entries' `sublist_of` map fst entries
    /\ length entries' <= length entries
    /\ (forall key x, In (key, x) entries -> scalar x = true -> In (key, x) entries').
Proof.
  pose proof (redact_descend _ _ _ _ _ _ _ Hcomputed Hredacted) as Hdescend.
  destruct (has_property expr "$cond").
  - destruct Hdescend as (entries' & -> & Hdescend). exists entries'.
    split; [reflexivity|].
    destruct (descend_entries_result _ _ _ _ _ _ _ Hdescend) as (kept & Hkept & Hsub).
    cbn [app] in Hkept. subst kept.
    split; [exact Hsub|]. split.
    + apply sublist_length in Hsub. rewrite !length_map in Hsub. exact Hsub.
    + intros key x Hin Hscalar. apply in_split in Hin as (before & later & ->).
      destruct (descend_entries_split _ (redact_at_around resolve OPERATORS fuel)
              _ _ _ _ _ _ _ _ _ Hdescend)
        as (done & r & _ & Hfield & Hrest).
      rewrite (descend_field_scalar _ _ _ _ _ Hscalar) in Hfield. injection Hfield as <-.
      destruct (descend_entries_result _ _ _ _ _ _ _ Hrest) as (kept & -> & _).
      rewrite !in_app_iff. left. right. left. reflexivity.
  - subst v. exists entries. repeat split; auto.
Qed.

Lemma redact_descend_fields_witness :
  exists entries',
    redact resolve_path Samples.redacting 8 Samples.archive Samples.hide_secrets None
    = Ok (VObj entries')
    /\ map fst entries' `sublist_of` ["name"; "inner"; "list"; "open"]
    /\ In ("name", VStr "y") entries'.
Proof.
  destruct (redact_descend_fields resolve_path Samples.redacting 7
              [("name", VStr "y");
               ("inner", VObj [("secret", VBool true); ("data", int 1)]);
               ("list", VArr [VObj [("secret", VBool true)]; VObj [("ok", int 1)];
                              int 5; VNull]);
               ("open", VObj [("data", int 2)])]
              Samples.hide_secrets None
              (VObj [("name", VStr "y");
                     ("list", VArr [VObj [("ok", int 1)]; int 5]);
                     ("open", VObj [("data", int 2)])]) eq_refl eq_refl)
    as (entries' & Heq & Hsub & _ & Hkept).
  exists entries'. split; [rewrite <- Heq; reflexivity|]. split; [exact Hsub|].
  apply Hkept; [left; reflexivity|reflexivity].
Defined.

Example redact_archive :
  redact resolve_path Samples.redacting 8 Samples.archive Samples.hide_secrets None
  = Ok (VObj [("name", VStr "y");
              ("list", VArr [VObj [("ok", int 1)]; int 5]);
              ("open", VObj [("data", int 2)])]).
Proof. reflexivity. Qed.

(** X16. What descending does with a field that holds an array, when the
    expression has a [$cond] entry: the field stays, holding an array that
    is never longer and has no nil member, in which every member of the
    original that is not an object and not nil is still there. *)
Theorem redact_descend_array
    (resolve : value -> string -> option ResolveOptions -> value) (OPERATORS : Registry)
    (fuel : nat) (entries entries' : list (string * value)) (expr : value)
    (options : option ComputeOptions) (key : string) (elems : list value)
    (Hcomputed : computeValue resolve OPERATORS fuel (VObj entries) expr None options
                 = Ok (VStr "$$DESCEND"))
    (Hcond : has_property expr "$cond" = true)
    (Hredacted : redact resolve OPERATORS (S fuel) (VObj entries) expr options
                 = Ok (VObj entries'))
    (Hfield : In (key, VArr elems) entries) :
  exists elems',
    In (key, VArr elems') entries'
    /\ Forall (fun x => isNil x = false) elems'
    /\ length elems' <= length elems
    /\ (forall x, In x elems -> isObject x = false -> isNil x = false -> In x elems').
Proof.
  pose proof (redact_descend _ _ _ _ _ _ _ Hcomputed Hredacted) as Hdescend.
  rewrite Hcond in Hdescend. destruct Hdescend as (result & [= ->] & Hdescend).
  apply in_split in Hfield as (before & later & ->).
  destruct (descend_entries_split _ (redact_at_around resolve OPERATORS fuel)
              _ _ _ _ _ _ _ _ _ Hdescend)
    as (done & r & _ & Hvisit & Hrest).
  cbn [descend_field] in Hvisit.
  destruct (descend_elements _ _ _ _ _ _ elems) as [kept| |] eqn:Helems;
    cbn [bind] in Hvisit; try discriminate.
  injection Hvisit as <-.
  destruct (descend_elements_result _ _ _ _ _ _ _ _ Helems)
    as (more & Hmore & Hnil & Hlen & Hkept).
  cbn [app] in Hmore. subst more.
  destruct (descend_entries_result _ _ _ _ _ _ _ Hrest) as (rest' & -> & _).
  exists kept. split; [|split; [exact Hnil|split; [exact Hlen|exact Hkept]]].
  rewrite !in_app_iff. left. right. left. reflexivity.
Qed.

Lemma redact_descend_array_witness :
  exists elems',
    In ("list", VArr elems')
       [("name", VStr "y");
        ("list", VArr [VObj [("ok", int 1)]; int 5]);
        ("open", VObj [("data", int 2)])]
    /\ Forall (fun x => isNil x = false) elems'
    /\ In (int 5) elems'.
Proof.
  destruct (redact_descend_array resolve_path Samples.redacting 7
              [("name", VStr "y");
               ("inner", VObj [("secret", VBool true); ("data", int 1)]);
               ("list", VArr [VObj [("secret", VBool true)]; VObj [("ok", int 1)];
                              int 5; VNull]);
               ("open", VObj [("data", int 2)])]
              [("name", VStr "y");
               ("list", VArr [VObj [("ok", int 1)]; int 5]);
               ("open", VObj [("data", int 2)])]
              Samples.hide_secrets None "list"
              [VObj [("secret", VBool true)]; VObj [("ok", int 1)]; int 5; VNull]
              eq_refl eq_refl eq_refl ltac:(right; right; left; reflexivity))
    as (elems' & Hin & Hnil & _ & Hkept).
  exists elems'. split; [exact Hin|]. split; [exact Hnil|].
  apply Hkept; [right; right; left; reflexivity|reflexivity|reflexivity].
Defined.

(** ** [$floor] inside expressions *)

Lemma floor_ensure_config
    (resolve : value -> string -> option ResolveOptions -> value) (OPERATORS : Registry)
    (fuel : nat) (obj expr : value) (options : option ComputeOptions) :
  dollar_floor (capabilities resolve OPERATORS fuel) obj expr (Some (ensure_config options))
  = dollar_floor (capabilities resolve OPERATORS fuel) obj expr options.
Proof.
  unfold dollar_floor. fold (computeValue resolve OPERATORS fuel).
  rewrite computeValue_ensure_config. reflexivity.
Qed.

Lemma floor_expression
    (resolve : value -> string -> option ResolveOptions -> value) (OPERATORS : Registry)
    (fuel : nat) (obj expr : value) (options : option ComputeOptions) :
  getOperator OPERATORS EXPRESSION (Some "$floor") = Some dollar_floor ->
  computeValue resolve OPERATORS (S (S fuel)) obj (VObj [("$floor", expr)]) None options
  = dollar_floor (capabilities resolve OPERATORS fuel) obj expr options.
Proof.
  intros Hfloor.
  assert (Hkey : is_operator_key OPERATORS "$floor" = true).
  { destruct (is_operator_key OPERATORS "$floor") eqn:Hkey; [reflexivity|].
    apply is_operator_key_false in Hkey as [Hk _]. congruence. }
  rewrite computeValue_unfold. unfold computeValue_body. cbn [getOperator].
  cbn [computeEntries].
  change (cap_computeValue (capabilities resolve OPERATORS (S fuel)))
    with (computeValue resolve OPERATORS (S fuel)).
  rewrite computeValue_unfold. unfold computeValue_body. rewrite Hfloor.
  rewrite !floor_ensure_config. rewrite Hkey.
  destruct (dollar_floor _ obj expr options); reflexivity.
Qed.

Lemma floor_output self obj expr options v :
  dollar_floor self obj expr options = Ok v ->
  v = VNull \/ exists y, v = VNum y /\ Math_floor y = y.
Proof.
  unfold dollar_floor.
  destruct (cap_computeValue self obj expr None options) as [n| |]; cbn [bind];
    try discriminate.
  destruct (isNil n); [intros [= <-]; left; reflexivity|].
  destruct (isNumber n || isNaN n); cbn [assert bind]; [|discriminate].
  intros [= <-]. right. eexists. split; [reflexivity|].
  destruct n as [| | |[| |q]| | |]; try reflexivity.
  cbn [Math_floor]. rewrite Qfloor_Z. reflexivity.
Qed.

(** X17. With [$floor] registered as the expression operator of that name,
    the mapping [{$floor: expr}] evaluates to what [$floor] gives for
    [expr]: null for an expression that resolves to nil, and for one that
    resolves to a finite number the largest integer not above it. *)
Theorem computeValue_floor
    (resolve : value -> string -> option ResolveOptions -> value) (OPERATORS : Registry)
    (fuel : nat) (obj expr : value) (options : option ComputeOptions)
    (Hfloor : getOperator OPERATORS EXPRESSION (Some "$floor") = Some dollar_floor) :
  let outcome :=
    computeValue resolve OPERATORS (S (S fuel)) obj (VObj [("$floor", expr)]) None options in
  (forall n, computeValue resolve OPERATORS fuel obj expr None options = Ok n ->
     isNil n = true -> outcome = Ok VNull)
  /\ (forall q, computeValue resolve OPERATORS fuel obj expr None options
                = Ok (VNum (Finite q)) ->
        outcome = Ok (int (Qfloor q))
        /\ (inject_Z (Qfloor q) <= q)%Q /\ (q < inject_Z (Qfloor q + 1))%Q)
  /\ (forall e, computeValue resolve OPERATORS fuel obj expr None options = Throw e ->
        outcome = Throw e).
Proof.
  intros outcome. subst outcome. rewrite (floor_expression _ _ _ _ _ _ Hfloor).
  repeat split.
  - intros n Hn Hnil. rewrite (floor_resolved _ _ _ _ _ _ _ Hn), Hnil. reflexivity.
  - rewrite (floor_resolved _ _ _ _ _ _ _ H). reflexivity.
  - apply Qfloor_le.
  - apply Qlt_floor.
  - intros e He. unfold dollar_floor. fold (computeValue resolve OPERATORS fuel).
    rewrite He. reflexivity.
Qed.

Lemma computeValue_floor_witness :
  computeValue resolve_path Samples.operators 3 (VObj [("a", VNum (Finite (-7 # 2)))])
    (VObj [("$floor", VStr "$a")]) None None
  = Ok (int (-4)).
Proof.
  destruct (computeValue_floor resolve_path Samples.operators 1
              (VObj [("a", VNum (Finite (-7 # 2)))]) (VStr "$a") None eq_refl)
    as (_ & Hfinite & _).
  exact (proj1 (Hfinite (-7 # 2)%Q eq_refl)).
Defined.

(** X18. [$floor] applied twice is [$floor] applied once: whenever
    [{$floor: expr}] evaluates to a value, [{$floor: {$floor: expr}}]
    evaluates to the same value, given two more units of fuel. *)
Theorem computeValue_floor_twice
    (resolve : value -> string -> option ResolveOptions -> value) (OPERATORS : Registry)
    (fuel : nat) (obj expr : value) (options : option ComputeOptions) (v : value)
    (Hfloor : getOperator OPERATORS EXPRESSION (Some "$floor") = Some dollar_floor)
    (Honce : computeValue resolve OPERATORS fuel obj (VObj [("$floor", expr)]) None options
             = Ok v) :
  computeValue resolve OPERATORS (S (S fuel)) obj
    (VObj [("$floor", VObj [("$floor", expr)])]) None options
  = Ok v.
Proof.
  rewrite (floor_expression _ _ _ _ _ _ Hfloor).
  rewrite (floor_resolved _ _ _ _ _ _ _ Honce).
  destruct fuel as [|[|fuel]]; try discriminate Honce.
  rewrite (floor_expression _ _ _ _ _ _ Hfloor) in Honce.
  destruct (floor_output _ _ _ _ _ Honce) as [->|(y & -> & Hy)]; [reflexivity|].
  cbn [isNil]. destruct y as [|negative|q]; try reflexivity.
  cbn [isNumber orb assert bind]. rewrite Hy. reflexivity.
Qed.

Lemma computeValue_floor_twice_witness :
  computeValue resolve_path Samples.operators 5 (VObj [("a", VNum (Finite (7 # 2)))])
    (VObj [("$floor", VObj [("$floor", VStr "$a")])]) None None
  = Ok (int 3).
Proof.
  apply (computeValue_floor_twice resolve_path Samples.operators 3
           (VObj [("a", VNum (Finite (7 # 2)))]) (VStr "$a") None (int 3) eq_refl).
  reflexivity.
Defined.

(** ** Options *)

(** X19. Options left out, options without a configuration and options with
    the default configuration [{ idKey: '_id' }] give the same evaluation;
    a root bound in the options is kept as it is. *)
Theorem computeValue_default_options
    (resolve : value -> string -> option ResolveOptions -> value) (OPERATORS : Registry)
    (fuel : nat) (obj expr : value) (operator : option string) :
  computeValue resolve OPERATORS fuel obj expr operator None
  = computeValue resolve OPERATORS fuel obj expr operator
      (Some {| config := Some {| idKey := "_id" |}; root := None |})
  /\ (forall r,
        computeValue resolve OPERATORS fuel obj expr operator
          (Some {| config := None; root := r |})
        = computeValue resolve OPERATORS fuel obj expr operator
            (Some {| config := Some {| idKey := "_id" |}; root := r |})).
Proof.
  split.
  - rewrite <- (computeValue_ensure_config resolve OPERATORS fuel obj expr operator None).
    reflexivity.
  - intros r.
    rewrite <- (computeValue_ensure_config resolve OPERATORS fuel obj expr operator
                  (Some {| config := None; root := r |})).
    reflexivity.
Qed.

(** X20. An operator name registered as an expression operator is served
    by that operator, also when an accumulator has the same name: the
    operator is called on the current document and on the expression as it
    stands, not evaluated, with options that always hold a configuration
    (the one given, or the default) and the root that was given. *)
Theorem computeValue_expression_operator
    (resolve : value -> string -> option ResolveOptions -> value) (OPERATORS : Registry)
    (fuel : nat) (obj expr : value) (operator : string) (call : Operator)
    (options : option ComputeOptions)
    (Hexpression : getOperator OPERATORS EXPRESSION (Some operator) = Some call) :
  exists handed : ComputeOptions,
    computeValue resolve OPERATORS (S fuel) obj expr (Some operator) options
    = call (capabilities resolve OPERATORS fuel) obj expr (Some handed)
    /\ config handed
       = Some (match options with
               | Some {| config := Some c |} => c
               | _ => createConfig
               end)
    /\ root handed = match options with Some o => root o | None => None end.
Proof.
  exists (ensure_config options). split; [|split].
  - rewrite computeValue_unfold. unfold computeValue_body. rewrite Hexpression.
    reflexivity.
  - destruct options as [[[c|] r]|]; reflexivity.
  - destruct options as [[c r]|]; reflexivity.
Qed.

Lemma computeValue_expression_operator_witness :
  exists handed : ComputeOptions,
    computeValue resolve_path Samples.operators 2 Samples.family (VStr "$$CURRENT.name")
      (Some "$within") None
    = Samples.within_child (capabilities resolve_path Samples.operators 1) Samples.family
        (VStr "$$CURRENT.name") (Some handed)
    /\ config handed = Some createConfig.
Proof.
  destruct (computeValue_expression_operator resolve_path Samples.operators 1 Samples.family
              (VStr "$$CURRENT.name") "$within" Samples.within_child None eq_refl)
    as (handed & Hcall & Hconfig & _).
  exists handed. split; assumption.
Defined.


